(** * Cherry OpenFlow controller: codec, action model and discovery engine

    A shallow embedding of
    - [openflow.BaseAction]                    (package openflow, action model),
    - [of10.ParseMessage], [of10.FeaturesReply] (package of10, OpenFlow 1.0 codec),
    - [discovery.processor]                    (northbound/app/discovery),
    with the properties the specification states about them. *)

From Stdlib Require Import ZArith Lia.
From Stdlib.Strings Require Import Byte.
From stdpp Require Import base list strings gmap.

Open Scope Z_scope.

(** ** Go values shared by the three packages *)

Module Go.

(** Go [error] values the modelled packages create.  The three sentinel
    errors are package-level variables of [openflow]; [errorString] is what
    [errors.New] and [fmt.Errorf] build. *)
Inductive error : Type :=
| ErrInvalidPacketLength
| ErrUnsupportedMessage
| ErrUnsupportedMarshaling
| errorString (msg : string).

(** Outcome of a call: a value, a returned [error], or the run-time panic
    of an index or slice expression that leaves the buffer.  The buffer is
    the bytes presented, so an expression reaching past [len] counts as
    [Panic]: Go panics when it also passes the capacity and otherwise reads
    bytes of the backing array that are not part of the message. *)
Inductive result (A : Type) : Type :=
| Ok (a : A)
| Err (e : error)
| Panic.
Arguments Ok {A} a.
Arguments Err {A} e.
Arguments Panic {A}.

#[export] Instance result_fmap : FMap result := λ A B f m,
  match m with
  | Ok a => Ok (f a)
  | Err e => Err e
  | Panic => Panic
  end.

(** Sequencing: the first error or panic ends the call.  With the
    instance, [x ← m; k] is stdpp's notation for it. *)
#[export] Instance result_bind : MBind result := λ A B k m,
  match m with
  | Ok a => k a
  | Err e => Err e
  | Panic => Panic
  end.

Definition is_Ok {A} (r : result A) : bool :=
  match r with Ok _ => true | _ => false end.

#[export] Instance byte_eq_dec : EqDecision byte.
Proof. intros a b. destruct (Byte.byte_eq_dec a b); [left | right]; assumption. Defined.

Definition byteZ (b : byte) : Z := Z.of_N (Byte.to_N b).

(** A byte from its numeric value (for writing buffers down). *)
Definition mkbyte (z : Z) : byte := default x00 (Byte.of_N (Z.to_N z)).

Definition len {A} (s : list A) : Z := Z.of_nat (length s).

(** [s[lo:hi]] *)
Definition slice {A} (s : list A) (lo hi : Z) : result (list A) :=
  if (0 <=? lo) && (lo <=? hi) && (hi <=? len s)
  then Ok (take (Z.to_nat (hi - lo)) (drop (Z.to_nat lo) s))
  else Panic.

(** [s[lo:]] *)
Definition slice_from {A} (s : list A) (lo : Z) : result (list A) :=
  slice s lo (len s).

(** [s[i]] *)
Definition index {A} (s : list A) (i : Z) : result A :=
  if (0 <=? i) && (i <? len s)
  then match s !! Z.to_nat i with Some x => Ok x | None => Panic end
  else Panic.

(** Conversion to uint16, and uint16 arithmetic once applied to a result. *)
Definition uint16 (z : Z) : Z := z mod 2 ^ 16.

(** [encoding/binary.BigEndian]: each reader first touches the last byte it
    needs, so a shorter slice panics. *)
Module BigEndian.

Definition Uint16 (b : list byte) : result Z :=
  match b with
  | b0 :: b1 :: _ => Ok (Z.lor (byteZ b1) (Z.shiftl (byteZ b0) 8))
  | _ => Panic
  end.

Definition Uint32 (b : list byte) : result Z :=
  match b with
  | b0 :: b1 :: b2 :: b3 :: _ =>
      Ok (Z.lor (Z.lor (Z.lor (byteZ b3) (Z.shiftl (byteZ b2) 8))
                       (Z.shiftl (byteZ b1) 16))
                (Z.shiftl (byteZ b0) 24))
  | _ => Panic
  end.

Definition Uint64 (b : list byte) : result Z :=
  match b with
  | b0 :: b1 :: b2 :: b3 :: b4 :: b5 :: b6 :: b7 :: _ =>
      Ok (Z.lor (Z.lor (Z.lor (Z.lor (Z.lor (Z.lor (Z.lor
            (byteZ b7)
            (Z.shiftl (byteZ b6) 8))
            (Z.shiftl (byteZ b5) 16))
            (Z.shiftl (byteZ b4) 24))
            (Z.shiftl (byteZ b3) 32))
            (Z.shiftl (byteZ b2) 40))
            (Z.shiftl (byteZ b1) 48))
            (Z.shiftl (byteZ b0) 56))
  | _ => Panic
  end.

End BigEndian.

(** The number a run of bytes spells, most significant byte first. *)
Definition be_value (bs : list byte) : Z :=
  foldl (λ acc b, acc * 256 + byteZ b) 0 bs.

End Go.

Import Go.

(** ** Package openflow: the action model *)

Module openflow.

(** [net.HardwareAddr] is a byte slice; [None] is the nil slice. *)
Definition HardwareAddr : Type := option (list byte).

Definition ZeroMAC : list byte := replicate 6 x00.

(** [BaseAction]: [output] is a map used as a set of ports; the two
    addresses are pointers to a slice, [None] while the pointer is nil (a
    successful set stores the address of a slice that is not nil). *)
Record BaseAction : Type := mkBaseAction {
  output : gset Z;
  srcMAC : option (list byte);
  dstMAC : option (list byte)
}.

Definition NewBaseAction : BaseAction :=
  {| output := ∅; srcMAC := None; dstMAC := None |}.

Definition SetOutput (r : BaseAction) (port : Z) : BaseAction * option error :=
  ({| output := {[port]} ∪ output r; srcMAC := srcMAC r; dstMAC := dstMAC r |},
   None).

Definition Output (r : BaseAction) : list Z := elements (output r).

(** [mac == nil || len(mac) < 6] *)
Definition invalid_mac (mac : HardwareAddr) : bool :=
  match mac with
  | None => true
  | Some bs => len bs <? 6
  end.

Definition SetSrcMAC (r : BaseAction) (mac : HardwareAddr) : BaseAction * option error :=
  if invalid_mac mac then (r, Some (errorString "invalid MAC address"))
  else ({| output := output r; srcMAC := mac; dstMAC := dstMAC r |}, None).

Definition SrcMAC (r : BaseAction) : bool * list byte :=
  match srcMAC r with
  | None => (false, ZeroMAC)
  | Some bs => (true, bs)
  end.

Definition SetDstMAC (r : BaseAction) (mac : HardwareAddr) : BaseAction * option error :=
  if invalid_mac mac then (r, Some (errorString "invalid MAC address"))
  else ({| output := output r; srcMAC := srcMAC r; dstMAC := mac |}, None).

Definition DstMAC (r : BaseAction) : bool * list byte :=
  match dstMAC r with
  | None => (false, ZeroMAC)
  | Some bs => (true, bs)
  end.

(** The addresses the specification's component design (4.1) has the
    setters reject: nil, or shorter than 6 bytes. *)
Definition nil_or_short (mac : HardwareAddr) : Prop :=
  mac = None ∨ ∃ bs, mac = Some bs ∧ (length bs < 6)%nat.

(** The rule of the specification's data model (3) as it is worded: every
    address that is nil or whose length is not exactly 6 is rejected by both
    setters. *)
Definition only_six_bytes_accepted : Prop :=
  ∀ (r : BaseAction) (mac : HardwareAddr),
    (mac = None ∨ ∃ bs, mac = Some bs ∧ length bs ≠ 6%nat) →
    (SetSrcMAC r mac).2 ≠ None ∧ (SetDstMAC r mac).2 ≠ None.

(** A run of calls on one action, each error dropped as a caller that
    goes on would. *)
Definition SetOutputs (r : BaseAction) (ports : list Z) : BaseAction :=
  foldl (λ r port, (SetOutput r port).1) r ports.

Definition SetSrcMACs (r : BaseAction) (macs : list HardwareAddr) : BaseAction :=
  foldl (λ r mac, (SetSrcMAC r mac).1) r macs.

Definition SetDstMACs (r : BaseAction) (macs : list HardwareAddr) : BaseAction :=
  foldl (λ r mac, (SetDstMAC r mac).1) r macs.

(** The last address of a run that is neither nil nor shorter than 6
    bytes. *)
Definition last_accepted (macs : list HardwareAddr) : option (list byte) :=
  last (omap (λ mac, if invalid_mac mac then None else mac) macs).

(** The error [SetSrcMAC] and [SetDstMAC] return for a rejected address
    (the specification's InvalidAddress). *)
Definition ErrInvalidAddress : error := errorString "invalid MAC address".

(** [encoding.BinaryUnmarshaler], together with the zeroed value [new(T)]
    the decoders are called on.  [UnmarshalBinary r data] is the receiver
    after a call that returned nil; a call that returns an error leaves a
    receiver its caller throws away. *)
Class BinaryUnmarshaler (T : Type) : Type := {
  new : T;
  UnmarshalBinary : T -> list byte -> result T
}.

Record Header : Type := mkHeader {
  Version : Z;
  Type_ : Z;
  Length : Z;
  XID : Z
}.

Definition HeaderSize : Z := 8.

(** Modelled from the spec: [openflow.Header.UnmarshalBinary] is not among
    the sources.  The header is 8 bytes (version 1, type 1, length 2
    big-endian, transaction id 4); its length field is at least the header
    size and at most the bytes presented, anything else is
    [ErrInvalidPacketLength]. *)
Definition Header_UnmarshalBinary (data : list byte) : result Header :=
  if len data <? HeaderSize then Err ErrInvalidPacketLength
  else
    v ← index data 0;
    t ← index data 1;
    b ← slice data 2 4;
    l ← BigEndian.Uint16 b;
    b' ← slice data 4 8;
    x ← BigEndian.Uint32 b';
    if (l <? HeaderSize) || (len data <? l) then Err ErrInvalidPacketLength
    else Ok {| Version := byteZ v; Type_ := byteZ t; Length := l; XID := x |}.

#[export] Instance Header_unmarshaler : BinaryUnmarshaler Header := {|
  new := {| Version := 0; Type_ := 0; Length := 0; XID := 0 |};
  UnmarshalBinary := λ _ data, Header_UnmarshalBinary data
|}.

(** Modelled from the spec: [openflow.Message] and its [UnmarshalBinary]
    are not among the sources.  [ParseMessage] uses it to decode the common
    header only, with no validation of the body, and reads the type back
    with [msg.Type()]. *)
Record Message : Type := mkMessage { header : Header }.

Definition Message_UnmarshalBinary (data : list byte) : result Message :=
  h ← Header_UnmarshalBinary data;
  Ok {| header := h |}.

Definition Message_Type (msg : Message) : Z := Type_ (header msg).

(** The length field of a buffer, when the buffer is long enough to hold
    one (bytes 2 and 3). *)
Definition declared_length (data : list byte) : option Z :=
  match slice data 2 4 with
  | Ok b => match BigEndian.Uint16 b with Ok l => Some l | _ => None end
  | _ => None
  end.

End openflow.

(** ** Package of10: the OpenFlow 1.0 codec *)

Module of10.

Import openflow.

(** Modelled from the spec: the constants of package of10 are declared in a
    file that is not among the sources; the values are the OpenFlow 1.0
    numeric assignment the specification refers to (features-reply is type
    6, as in its decode scenario). *)
Definition OFPT_FEATURES_REPLY : Z := 6.
Definition OFPT_GET_CONFIG_REPLY : Z := 8.
Definition OFPT_FLOW_REMOVED : Z := 11.
Definition OFPT_PORT_STATUS : Z := 12.
Definition OFPT_STATS_REPLY : Z := 17.

Definition OFPST_DESC : Z := 0.

(** Capability bits are masks. *)
Definition OFPC_FLOW_STATS : Z := Z.shiftl 1 0.
Definition OFPC_TABLE_STATS : Z := Z.shiftl 1 1.
Definition OFPC_PORT_STATS : Z := Z.shiftl 1 2.
Definition OFPC_STP : Z := Z.shiftl 1 3.
Definition OFPC_RESERVED : Z := Z.shiftl 1 4.
Definition OFPC_IP_REASM : Z := Z.shiftl 1 5.
Definition OFPC_QUEUE_STATS : Z := Z.shiftl 1 6.
Definition OFPC_ARP_MATCH_IP : Z := Z.shiftl 1 7.

(** Action types are bit positions. *)
Definition OFPAT_OUTPUT : Z := 0.
Definition OFPAT_SET_VLAN_VID : Z := 1.
Definition OFPAT_SET_VLAN_PCP : Z := 2.
Definition OFPAT_STRIP_VLAN : Z := 3.
Definition OFPAT_SET_DL_SRC : Z := 4.
Definition OFPAT_SET_DL_DST : Z := 5.
Definition OFPAT_SET_NW_SRC : Z := 6.
Definition OFPAT_SET_NW_DST : Z := 7.
Definition OFPAT_SET_NW_TOS : Z := 8.
Definition OFPAT_SET_TP_SRC : Z := 9.
Definition OFPAT_SET_TP_DST : Z := 10.
Definition OFPAT_ENQUEUE : Z := 11.

Record Capability : Type := mkCapability {
  cap_FLOW_STATS : bool;
  cap_TABLE_STATS : bool;
  cap_PORT_STATS : bool;
  cap_STP : bool;
  cap_RESERVED : bool;
  cap_IP_REASM : bool;
  cap_QUEUE_STATS : bool;
  cap_ARP_MATCH_IP : bool
}.

Record Action : Type := mkAction {
  act_OUTPUT : bool;
  act_SET_VLAN_VID : bool;
  act_SET_VLAN_PCP : bool;
  act_STRIP_VLAN : bool;
  act_SET_DL_SRC : bool;
  act_SET_DL_DST : bool;
  act_SET_NW_SRC : bool;
  act_SET_NW_DST : bool;
  act_SET_NW_TOS : bool;
  act_SET_TP_SRC : bool;
  act_SET_TP_DST : bool;
  act_ENQUEUE : bool
}.

(** [x & m != 0] *)
Definition has_bits (x m : Z) : bool := negb (Z.land x m =? 0).

Definition getSupportedAction (actions : Z) : Action := {|
  act_OUTPUT := has_bits actions (Z.shiftl 1 OFPAT_OUTPUT);
  act_SET_VLAN_VID := has_bits actions (Z.shiftl 1 OFPAT_SET_VLAN_VID);
  act_SET_VLAN_PCP := has_bits actions (Z.shiftl 1 OFPAT_SET_VLAN_PCP);
  act_STRIP_VLAN := has_bits actions (Z.shiftl 1 OFPAT_STRIP_VLAN);
  act_SET_DL_SRC := has_bits actions (Z.shiftl 1 OFPAT_SET_DL_SRC);
  act_SET_DL_DST := has_bits actions (Z.shiftl 1 OFPAT_SET_DL_DST);
  act_SET_NW_SRC := has_bits actions (Z.shiftl 1 OFPAT_SET_NW_SRC);
  act_SET_NW_DST := has_bits actions (Z.shiftl 1 OFPAT_SET_NW_DST);
  act_SET_NW_TOS := has_bits actions (Z.shiftl 1 OFPAT_SET_NW_TOS);
  act_SET_TP_SRC := has_bits actions (Z.shiftl 1 OFPAT_SET_TP_SRC);
  act_SET_TP_DST := has_bits actions (Z.shiftl 1 OFPAT_SET_TP_DST);
  act_ENQUEUE := has_bits actions (Z.shiftl 1 OFPAT_ENQUEUE)
|}.

Definition getCapability (capabilities : Z) : Capability := {|
  cap_FLOW_STATS := has_bits capabilities OFPC_FLOW_STATS;
  cap_TABLE_STATS := has_bits capabilities OFPC_TABLE_STATS;
  cap_PORT_STATS := has_bits capabilities OFPC_PORT_STATS;
  cap_STP := has_bits capabilities OFPC_STP;
  cap_RESERVED := has_bits capabilities OFPC_RESERVED;
  cap_IP_REASM := has_bits capabilities OFPC_IP_REASM;
  cap_QUEUE_STATS := has_bits capabilities OFPC_QUEUE_STATS;
  cap_ARP_MATCH_IP := has_bits capabilities OFPC_ARP_MATCH_IP
|}.

Section Decoders.

(** The message types of package of10 whose files are not among the
    sources: only that each can be allocated and decoded is used. *)
Context {Port GetConfigReply DescriptionReply PortStatus FlowRemoved : Type}.
Context `{!BinaryUnmarshaler Port, !BinaryUnmarshaler GetConfigReply,
          !BinaryUnmarshaler DescriptionReply, !BinaryUnmarshaler PortStatus,
          !BinaryUnmarshaler FlowRemoved}.

(** [Ports] is a slice of pointers: [None] is an entry still nil. *)
Record FeaturesReply : Type := mkFeaturesReply {
  fr_header : Header;
  DPID : Z;
  NumBuffers : Z;
  NumTables : Z;
  Capabilities : Capability;
  Actions : Action;
  Ports : list (option Port)
}.

Definition FeaturesReply_MarshalBinary (r : FeaturesReply) : result (list byte) :=
  Err ErrUnsupportedMarshaling.

(** The window of port [i]: [buf := data[32+i*48:]] then [buf[0:48]], with
    the offset computed in uint16 as in the source. *)
Definition port_window (data : list byte) (i : Z) : result (list byte) :=
  buf ← slice_from data (uint16 (32 + uint16 (i * 48)));
  slice buf 0 48.

(** The loop [for i := uint16(0); i < nPorts; i++], entered with [n]
    iterations left to run ([i < nPorts <= 65535], so [i++] never wraps and
    the loop body runs once for each index below [nPorts]).  The first
    failing port decode ends the loop with that error. *)
Fixpoint decode_ports (n : nat) (data : list byte) (i : Z)
    (ports : list (option Port)) : result (list (option Port)) :=
  match n with
  | O => Ok ports
  | S n' =>
      w ← port_window data i;
      p ← UnmarshalBinary new w;
      decode_ports n' data (uint16 (i + 1)) (<[Z.to_nat i := Some p]> ports)
  end.

Definition FeaturesReply_UnmarshalBinary (r : FeaturesReply) (data : list byte)
    : result FeaturesReply :=
  h ← UnmarshalBinary (fr_header r) data;
  if (Length h <? 32) || (len data <? Length h) then Err ErrInvalidPacketLength
  else
    b ← slice data 8 16;
    dpid ← BigEndian.Uint64 b;
    b ← slice data 16 20;
    nbuf ← BigEndian.Uint32 b;
    ntab ← index data 20;
    b ← slice data 24 28;
    caps ← BigEndian.Uint32 b;
    b ← slice data 28 32;
    acts ← BigEndian.Uint32 b;
    let r' := {| fr_header := h; DPID := dpid; NumBuffers := nbuf;
                 NumTables := byteZ ntab;
                 Capabilities := getCapability caps;
                 Actions := getSupportedAction acts;
                 Ports := Ports r |} in
    let nPorts := uint16 (Length h - 32) / 48 in
    if nPorts =? 0 then Ok r'
    else
      ports ← decode_ports (Z.to_nat nPorts) data 0
                (replicate (Z.to_nat nPorts) None);
      Ok {| fr_header := h; DPID := dpid; NumBuffers := nbuf;
            NumTables := byteZ ntab;
            Capabilities := getCapability caps;
            Actions := getSupportedAction acts;
            Ports := ports |}.

#[export] Instance FeaturesReply_unmarshaler : BinaryUnmarshaler FeaturesReply := {|
  new := {| fr_header := new; DPID := 0; NumBuffers := 0; NumTables := 0;
            Capabilities := getCapability 0; Actions := getSupportedAction 0;
            Ports := [] |};
  UnmarshalBinary := FeaturesReply_UnmarshalBinary
|}.

(** [openflow.Incoming], over the message types [ParseMessage] builds. *)
Inductive Incoming : Type :=
| InFeaturesReply (v : FeaturesReply)
| InGetConfigReply (v : GetConfigReply)
| InDescriptionReply (v : DescriptionReply)
| InPortStatus (v : PortStatus)
| InFlowRemoved (v : FlowRemoved).

(** The dynamic dispatch of [v.UnmarshalBinary(data)]. *)
Definition Incoming_UnmarshalBinary (v : Incoming) (data : list byte)
    : result Incoming :=
  match v with
  | InFeaturesReply r => InFeaturesReply <$> UnmarshalBinary r data
  | InGetConfigReply r => InGetConfigReply <$> UnmarshalBinary r data
  | InDescriptionReply r => InDescriptionReply <$> UnmarshalBinary r data
  | InPortStatus r => InPortStatus <$> UnmarshalBinary r data
  | InFlowRemoved r => InFlowRemoved <$> UnmarshalBinary r data
  end.

(** The two switches of [ParseMessage]: the value the message decodes into. *)
Definition select_incoming (msg : Message) (data : list byte) : result Incoming :=
  let t := Message_Type msg in
  if t =? OFPT_FEATURES_REPLY then Ok (InFeaturesReply new)
  else if t =? OFPT_GET_CONFIG_REPLY then Ok (InGetConfigReply new)
  else if t =? OFPT_STATS_REPLY then
    b ← slice data 8 10;
    st ← BigEndian.Uint16 b;
    if st =? OFPST_DESC then Ok (InDescriptionReply new)
    else Err ErrUnsupportedMessage
  else if t =? OFPT_PORT_STATUS then Ok (InPortStatus new)
  else if t =? OFPT_FLOW_REMOVED then Ok (InFlowRemoved new)
  else Err ErrUnsupportedMessage.

Definition ParseMessage (data : list byte) : result Incoming :=
  msg ← Message_UnmarshalBinary data;
  v ← select_incoming msg data;
  Incoming_UnmarshalBinary v data.

(** The port records as the specification lays them out: record [i] is the
    48 bytes at offset 32 + 48 * i, and each is handed to the port decoder. *)
Definition wire_window (data : list byte) (i : nat) : list byte :=
  take 48 (drop (32 + 48 * i) data).

Definition wire_ports (data : list byte) (n : nat) : list (result Port) :=
  (λ i, UnmarshalBinary new (wire_window data i)) <$> seq 0 n.

(** The outcomes of a run of decodes, stopped by the first that fails. *)
Fixpoint first_failure {A} (rs : list (result A)) : result (list A) :=
  match rs with
  | [] => Ok []
  | r :: rs' => a ← r; l ← first_failure rs'; Ok (a :: l)
  end.

(** The message types [ParseMessage] has a case for. *)
Definition registered (t : Z) : bool :=
  bool_decide (t ∈ [OFPT_FEATURES_REPLY; OFPT_GET_CONFIG_REPLY; OFPT_STATS_REPLY;
                    OFPT_PORT_STATUS; OFPT_FLOW_REMOVED]).

(** The statistics sub-type of a buffer: the big-endian 16 bits at offset
    8, when the buffer has them. *)
Definition stats_subtype (data : list byte) : option Z :=
  match data !! 8%nat, data !! 9%nat with
  | Some b0, Some b1 => Some (byteZ b0 * 256 + byteZ b1)
  | _, _ => None
  end.

End Decoders.

Arguments FeaturesReply : clear implicits.
Arguments Incoming : clear implicits.

End of10.

(** ** Package discovery: the discovery engine *)

Module discovery.

Import openflow.

(** A locally administered MAC address, the source of every probe. *)
Definition myMAC : list byte :=
  [mkbyte 0x06; mkbyte 0xff; mkbyte 0x29; mkbyte 0x34; mkbyte 0x82; mkbyte 0x87].

(** [bytes.Equal] *)
Definition bytes_Equal (a b : list byte) : bool := bool_decide (a = b).

(** [strconv.ParseUint(s, 10, 64)]: a non-empty run of decimal digits whose
    value fits 64 bits; no sign, no underscore. *)
Definition digit (c : Ascii.ascii) : option Z :=
  let n := Z.of_N (Ascii.N_of_ascii c) in
  if (48 <=? n) && (n <=? 57) then Some (n - 48) else None.

Fixpoint parse_digits (s : string) (acc : Z) : option Z :=
  match s with
  | EmptyString => Some acc
  | String c s' =>
      match digit c with
      | Some d =>
          let acc' := acc * 10 + d in
          if acc' <? 2 ^ 64 then parse_digits s' acc' else None
      | None => None
      end
  end.

Definition ParseUint (s : string) : option Z :=
  match s with
  | EmptyString => None
  | _ => parse_digits s 0
  end.

(** The entities of package network the engine refers to. *)
Record Device : Type := mkDevice { dev_ID : string }.

Record Port : Type := mkPort {
  port_Device : Device;
  port_Number : Z
}.

Record Finder : Type := mkFinder { Devices : list Device }.

(** Package protocol: an Ethernet frame and an ARP packet. *)
Record Ethernet : Type := mkEthernet {
  SrcMAC : list byte;
  DstMAC : list byte;
  eth_Type : Z;
  Payload : list byte
}.

Record ARP : Type := mkARP {
  HWType : Z;
  ProtoType : Z;
  HWLength : Z;
  ProtoLength : Z;
  Operation : Z;
  SHA : list byte;
  SPA : list byte;
  THA : list byte;
  TPA : list byte
}.

(** What a processor hands to the next link of the pipeline. *)
Inductive forwarded : Type :=
| FwdDeviceUp (finder : Finder) (device : Device)
| FwdDeviceDown (finder : Finder) (device : Device)
| FwdPortUp (finder : Finder) (port : Port)
| FwdPortDown (finder : Finder) (port : Port)
| FwdPacketIn (finder : Finder) (ingress : Port) (eth : Ethernet).

(** A call the engine makes on one of its collaborators. *)
Inductive call : Type :=
| CallGetUndiscoveredHosts (expiration : Z)
| CallUpdateHostLocation (mac ip : list byte) (swDPID portNum : Z)
| CallResetHostLocationsByPort (swDPID portNum : Z)
| CallResetHostLocationsByDevice (swDPID : Z)
| CallSendARPProbe (device : Device) (sha ip : list byte)
| CallRemoveFlowByMAC (device : Device) (mac : list byte)
| CallNext (ev : forwarded).

#[export] Instance Device_eq_dec : EqDecision Device.
Proof. solve_decision. Defined.
#[export] Instance Port_eq_dec : EqDecision Port.
Proof. solve_decision. Defined.
#[export] Instance Finder_eq_dec : EqDecision Finder.
Proof. solve_decision. Defined.
#[export] Instance Ethernet_eq_dec : EqDecision Ethernet.
Proof. solve_decision. Defined.
#[export] Instance forwarded_eq_dec : EqDecision forwarded.
Proof. solve_decision. Defined.
#[export] Instance call_eq_dec : EqDecision call.
Proof. solve_decision. Defined.

(** The collaborators, as transitions of a world [W] the engine does not
    own: the [Database], the methods of [network.Device], and the next
    link behind [app.BaseProcessor].  A Go method returning an [error]
    gives [option error]; [None] is nil. *)
Class Collaborators (W : Type) : Type := {
  db_GetUndiscoveredHosts : Z -> W -> (list (list byte) * option error) * W;
  db_UpdateHostLocation :
    list byte -> list byte -> Z -> Z -> W -> (bool * option error) * W;
  db_ResetHostLocationsByPort : Z -> Z -> W -> option error * W;
  db_ResetHostLocationsByDevice : Z -> W -> option error * W;
  dev_IsClosed : Device -> W -> bool;
  dev_SendARPProbe : Device -> list byte -> list byte -> W -> option error * W;
  dev_RemoveFlowByMAC : Device -> list byte -> W -> option error * W;
  next_processor : forwarded -> W -> option error * W
}.

(** One probing goroutine: the device it probes, whether its context has
    been cancelled, and whether it has returned. *)
Record task : Type := mkTask {
  task_device : Device;
  ctx_done : bool;
  returned : bool
}.

Definition cancel (t : task) : task :=
  {| task_device := task_device t; ctx_done := true; returned := returned t |}.

Definition finish (t : task) : task :=
  {| task_device := task_device t; ctx_done := ctx_done t; returned := true |}.

(** [time.Minute], in nanoseconds. *)
Definition Minute : Z := 60 * 1000000000.

Definition is_forward_call (c : call) : bool :=
  match c with CallNext _ => true | _ => false end.

(** What the canceller table is about in a goroutine: its device and
    whether its context is cancelled. *)
Definition task_key (t : task) : Device * bool := (task_device t, ctx_done t).

Section Engine.

Context {W : Type} `{!Collaborators W} `{!BinaryUnmarshaler ARP}.

(** The processor with what surrounds it: the canceller table (a
    [CancelFunc] is the index of the task whose context it cancels), every
    goroutine started so far, the collaborators' world and the calls made
    on them, oldest first. *)
Record state : Type := mkState {
  canceller : gmap string nat;
  tasks : list task;
  world : W;
  calls : list call
}.

Definition New (w : W) : state :=
  {| canceller := ∅; tasks := []; world := w; calls := [] |}.

(** A method body: it runs on the state and returns, fails with an error,
    or panics. *)
Definition M (A : Type) : Type := state -> result A * state.

Definition ret {A} (a : A) : M A := λ s, (Ok a, s).
Definition fail {A} (e : error) : M A := λ s, (Err e, s).

Definition bindM {A B} (m : M A) (k : A -> M B) : M B := λ s,
  match m s with
  | (Ok a, s') => k a s'
  | (Err e, s') => (Err e, s')
  | (Panic, s') => (Panic, s')
  end.

Notation "x ←ₘ m ; k" := (bindM m (λ x, k))
  (at level 20, m at level 100, k at level 200, right associativity,
   format "x  ←ₘ  m ;  '/' k").

(** A call on a collaborator: logged, then answered by the world. *)
Definition collab {A} (c : call) (f : W -> A * W) : M A := λ s,
  let '(a, w') := f (world s) in
  (Ok a, {| canceller := canceller s; tasks := tasks s; world := w';
            calls := calls s ++ [c] |}).

(** [return err] for an [error] that may be nil. *)
Definition return_error (e : option error) : M unit :=
  match e with
  | Some err => fail err
  | None => ret tt
  end.

(** [return r.BaseProcessor.OnX(...)] *)
Definition forward (ev : forwarded) : M unit :=
  e ←ₘ collab (CallNext ev) (next_processor ev);
  return_error e.

Definition removeARPSender (deviceID : string) : M unit := λ s,
  match canceller s !! deviceID with
  | None => (Ok tt, s)
  | Some c =>
      (Ok tt, {| canceller := delete deviceID (canceller s);
                 tasks := alter cancel c (tasks s);
                 world := world s; calls := calls s |})
  end.

Definition addARPSender (device : Device) : M unit := λ s,
  (Ok tt, {| canceller := <[dev_ID device := length (tasks s)]> (canceller s);
             tasks := tasks s ++ [{| task_device := device; ctx_done := false;
                                     returned := false |}];
             world := world s; calls := calls s |}).

Fixpoint probe_hosts (device : Device) (hosts : list (list byte)) : M unit :=
  match hosts with
  | [] => ret tt
  | ip :: rest =>
      e ←ₘ collab (CallSendARPProbe device myMAC ip) (dev_SendARPProbe device myMAC ip);
      match e with
      | Some err => fail err
      | None => probe_hosts device rest
      end
  end.

Definition sendARPProbes (device : Device) : M unit := λ s,
  if dev_IsClosed device (world s)
  then fail (errorString ("already closed deivce: id=" +:+ dev_ID device)) s
  else
    (r ←ₘ collab (CallGetUndiscoveredHosts (1 * Minute))
                 (db_GetUndiscoveredHosts (1 * Minute));
     match r.2 with
     | Some err => fail err
     | None => probe_hosts device r.1
     end) s.

(** [if err := m; err != nil { log; keep going }] *)
Definition ignore_error (m : M unit) : M unit := λ s,
  match m s with
  | (Err _, s') => (Ok tt, s')
  | r => r
  end.

Definition OnDeviceUp (finder : Finder) (device : Device) : M unit :=
  _ ←ₘ removeARPSender (dev_ID device);
  _ ←ₘ addARPSender device;
  forward (FwdDeviceUp finder device).

(** The loop over [finder.Devices()]: a failed removal is logged and the
    loop continues. *)
Fixpoint remove_flows (devices : list Device) (mac : list byte) : M unit :=
  match devices with
  | [] => ret tt
  | device :: rest =>
      _ ←ₘ collab (CallRemoveFlowByMAC device mac) (dev_RemoveFlowByMAC device mac);
      remove_flows rest mac
  end.

Definition decode_ARP (payload : list byte) : M ARP := λ s,
  (UnmarshalBinary new payload, s).

Definition OnPacketIn (finder : Finder) (ingress : Port) (eth : Ethernet) : M unit :=
  if negb (eth_Type eth =? 0x0806) then forward (FwdPacketIn finder ingress eth)
  else
    arp ←ₘ decode_ARP (Payload eth);
    if negb (Operation arp =? 2) then forward (FwdPacketIn finder ingress eth)
    else if negb (bytes_Equal (SHA arp) myMAC) then ret tt
    else
      match ParseUint (dev_ID (port_Device ingress)) with
      | None =>
          fail (errorString ("invalid device ID: " +:+ dev_ID (port_Device ingress)))
      | Some swDPID =>
          let portNum := uint16 (port_Number ingress) in
          r ←ₘ collab (CallUpdateHostLocation (THA arp) (TPA arp) swDPID portNum)
                      (db_UpdateHostLocation (THA arp) (TPA arp) swDPID portNum);
          match r.2 with
          | Some err => fail err
          | None =>
              if r.1 then remove_flows (Devices finder) (THA arp) else ret tt
          end
      end.

Definition OnPortUp (finder : Finder) (port : Port) : M unit :=
  _ ←ₘ ignore_error (sendARPProbes (port_Device port));
  forward (FwdPortUp finder port).

Definition OnPortDown (finder : Finder) (port : Port) : M unit :=
  match ParseUint (dev_ID (port_Device port)) with
  | None => fail (errorString ("invalid device ID: " +:+ dev_ID (port_Device port)))
  | Some swDPID =>
      e ←ₘ collab (CallResetHostLocationsByPort swDPID (uint16 (port_Number port)))
                  (db_ResetHostLocationsByPort swDPID (uint16 (port_Number port)));
      match e with
      | Some err => fail err
      | None => forward (FwdPortDown finder port)
      end
  end.

Definition OnDeviceDown (finder : Finder) (device : Device) : M unit :=
  _ ←ₘ removeARPSender (dev_ID device);
  match ParseUint (dev_ID device) with
  | None => fail (errorString ("invalid device ID: " +:+ dev_ID device))
  | Some swDPID =>
      e ←ₘ collab (CallResetHostLocationsByDevice swDPID)
                  (db_ResetHostLocationsByDevice swDPID);
      match e with
      | Some err => fail err
      | None => forward (FwdDeviceDown finder device)
      end
  end.

(** One turn of the goroutine started by [addARPSender]: it returns when
    it finds its context cancelled, and otherwise sends the probes (an
    error is logged) before it sleeps. *)
Definition task_turn (c : nat) : M unit := λ s,
  match tasks s !! c with
  | None => (Ok tt, s)
  | Some t =>
      if returned t then (Ok tt, s)
      else if ctx_done t then
        (Ok tt, {| canceller := canceller s; tasks := alter finish c (tasks s);
                   world := world s; calls := calls s |})
      else ignore_error (sendARPProbes (task_device t)) s
  end.

(** What happens to the engine: the pipeline delivers an event, or a
    probing goroutine takes a turn. *)
Inductive event : Type :=
| EvDeviceUp (finder : Finder) (device : Device)
| EvDeviceDown (finder : Finder) (device : Device)
| EvPortUp (finder : Finder) (port : Port)
| EvPortDown (finder : Finder) (port : Port)
| EvPacketIn (finder : Finder) (ingress : Port) (eth : Ethernet)
| EvTaskTurn (c : nat).

Definition handle (ev : event) : M unit :=
  match ev with
  | EvDeviceUp f d => OnDeviceUp f d
  | EvDeviceDown f d => OnDeviceDown f d
  | EvPortUp f p => OnPortUp f p
  | EvPortDown f p => OnPortDown f p
  | EvPacketIn f p eth => OnPacketIn f p eth
  | EvTaskTurn c => task_turn c
  end.

(** The state after a sequence of events, whatever each handler returned. *)
Definition run (evs : list event) (s : state) : state :=
  foldl (λ s ev, (handle ev s).2) s evs.

(** The goroutines probing on behalf of a device id whose context is not
    cancelled, by index. *)
Definition live (s : state) (deviceID : string) : list nat :=
  filter (λ c, match tasks s !! c with
               | Some t => bool_decide (dev_ID (task_device t) = deviceID)
                           && negb (ctx_done t)
               | None => false
               end = true)
         (seq 0 (length (tasks s))).

(** The calls a method made: those logged between two states. *)
Definition calls_since (s s' : state) : list call :=
  drop (length (calls s)) (calls s').


(** The frames the packet handler treats as an ARP reply: ARP type, and a
    payload that decodes with operation 2. *)
Definition is_ARP_reply (eth : Ethernet) : Prop :=
  eth_Type eth = 0x0806 ∧
  ∃ arp, UnmarshalBinary new (Payload eth) = Ok arp ∧ Operation arp = 2.

(** [OnPacketIn] handed the frame, as it came, to the next link and did
    nothing else. *)
Definition forwards_frame (finder : Finder) (ingress : Port) (eth : Ethernet)
    (s : state) : Prop :=
  calls_since s (OnPacketIn finder ingress eth s).2 =
    [CallNext (FwdPacketIn finder ingress eth)].

(** The packet-handling rule of the specification as it is worded: every
    frame that is not an ARP reply is forwarded, so that only an ARP reply
    is ever consumed. *)
Definition consumes_only_ARP_replies : Prop :=
  ∀ finder ingress eth s,
    ¬ is_ARP_reply eth → forwards_frame finder ingress eth s.

(** A method keeps the table when it changes neither the canceller table
    nor any goroutine. *)
Definition keeps_table {A} (m : M A) : Prop :=
  ∀ s, canceller (m s).2 = canceller s ∧ tasks (m s).2 = tasks s.

(** The canceller table and the goroutines agree: an entry names a task of
    that device whose context is not cancelled, and every such task is named
    by the entry of its device. *)
Definition table_consistent (s : state) : Prop :=
  (∀ id c, canceller s !! id = Some c →
     ∃ t, tasks s !! c = Some t ∧ dev_ID (task_device t) = id ∧ ctx_done t = false) ∧
  (∀ c t, tasks s !! c = Some t → ctx_done t = false →
     canceller s !! dev_ID (task_device t) = Some c).

End Engine.

Arguments state : clear implicits.
Arguments M : clear implicits.

End discovery.

(** ** Instances to run the model on concrete inputs *)

Module Examples.

Import openflow of10 discovery.

Definition bytes (l : list Z) : list byte := mkbyte <$> l.

(** Modelled from the spec: the decoder of a port record is not among the
    sources; a port record is a window of 48 bytes, kept here as it is. *)
Definition RawPort : Type := list byte.

#[export] Instance RawPort_unmarshaler : BinaryUnmarshaler RawPort := {|
  new := [];
  UnmarshalBinary := λ _ data,
    if len data <? 48 then Err ErrInvalidPacketLength else Ok data
|}.

(** Modelled from the spec: the other message types of package of10 are
    not among the sources and the specification does not describe their
    bodies; this stand-in keeps the bytes of any buffer that holds a
    header. *)
Inductive Raw (tag : Z) : Type := mkRaw (body : list byte).

#[export] Instance Raw_unmarshaler tag : BinaryUnmarshaler (Raw tag) := {|
  new := mkRaw tag [];
  UnmarshalBinary := λ _ data,
    _ ← Header_UnmarshalBinary data; Ok (mkRaw tag data)
|}.

(** Modelled from the spec: a second stand-in for the port decoder, one
    that can fail as the specification allows a port decode to: it rejects a
    record whose first byte is 255. *)
Record StrictPort : Type := mkStrictPort { sp_bytes : list byte }.

#[export] Instance StrictPort_unmarshaler : BinaryUnmarshaler StrictPort := {|
  new := mkStrictPort [];
  UnmarshalBinary := λ _ data,
    match data with
    | b :: _ =>
        if byteZ b =? 255 then Err (errorString "invalid port")
        else Ok (mkStrictPort data)
    | [] => Err ErrInvalidPacketLength
    end
|}.

Definition ParseMessage_raw : list byte -> result _ :=
  ParseMessage (Port := RawPort)
    (GetConfigReply := Raw OFPT_GET_CONFIG_REPLY)
    (DescriptionReply := Raw OFPT_STATS_REPLY)
    (PortStatus := Raw OFPT_PORT_STATUS)
    (FlowRemoved := Raw OFPT_FLOW_REMOVED).

(** The header of the specification's scenario: version 1, features-reply,
    length 32, transaction id 1; then 24 bytes of feature fields with only
    the flow-stats capability set. *)
Definition features_no_port : list byte :=
  bytes [1; 6; 0; 32; 0; 0; 0; 1;
         0; 0; 0; 0; 0; 0; 0; 42;
         0; 0; 1; 0;
         2; 0; 0; 0;
         0; 0; 0; 1;
         0; 0; 0; 1].

(** The same features with length 32 + 48 * 2 and two port records. *)
Definition features_two_ports : list byte :=
  bytes [1; 6; 0; 128; 0; 0; 0; 1;
         0; 0; 0; 0; 0; 0; 0; 42;
         0; 0; 1; 0;
         2; 0; 0; 0;
         0; 0; 0; 1;
         0; 0; 0; 1]
  ++ replicate 48 (mkbyte 7) ++ replicate 48 (mkbyte 9).

(** Features with three port records, the second of which starts with
    byte 255. *)
Definition features_bad_port : list byte :=
  bytes [1; 6; 0; 176; 0; 0; 0; 1;
         0; 0; 0; 0; 0; 0; 0; 42;
         0; 0; 1; 0;
         2; 0; 0; 0;
         0; 0; 0; 1;
         0; 0; 0; 1]
  ++ replicate 48 (mkbyte 7) ++ replicate 48 (mkbyte 255)
  ++ replicate 48 (mkbyte 9).

(** A statistics reply that is a header and nothing else. *)
Definition stats_header_only : list byte := bytes [1; 17; 0; 8; 0; 0; 0; 1].

(** A statistics reply of sub-type 1 (flow statistics). *)
Definition stats_flow : list byte :=
  bytes [1; 17; 0; 12; 0; 0; 0; 1; 0; 1; 0; 0].

(** An echo request (type 2): a type [ParseMessage] has no case for. *)
Definition echo_request : list byte := bytes [1; 2; 0; 8; 0; 0; 0; 1].

(** Modelled from the spec: [protocol.ARP.UnmarshalBinary] is not among the
    sources and the specification gives no layout; this instance reads the
    28 bytes of an Ethernet/IPv4 ARP packet (RFC 826) and rejects a shorter
    payload. *)
Definition ARP_UnmarshalBinary (data : list byte) : result ARP :=
  if len data <? 28 then Err (errorString "invalid ARP packet length")
  else
    b ← slice data 0 2; hw ← BigEndian.Uint16 b;
    b ← slice data 2 4; pt ← BigEndian.Uint16 b;
    hl ← index data 4;
    pl ← index data 5;
    b ← slice data 6 8; op ← BigEndian.Uint16 b;
    sha ← slice data 8 14;
    spa ← slice data 14 18;
    tha ← slice data 18 24;
    tpa ← slice data 24 28;
    Ok {| HWType := hw; ProtoType := pt; HWLength := byteZ hl;
          ProtoLength := byteZ pl; Operation := op;
          SHA := sha; SPA := spa; THA := tha; TPA := tpa |}.

#[export] Instance ARP_unmarshaler : BinaryUnmarshaler ARP := {|
  new := {| HWType := 0; ProtoType := 0; HWLength := 0; ProtoLength := 0;
            Operation := 0; SHA := []; SPA := []; THA := []; TPA := [] |};
  UnmarshalBinary := λ _ data, ARP_UnmarshalBinary data
|}.

(** A world for the examples: the store reports every location update as
    a change, device "2" fails every flow removal, everything else
    succeeds; the world itself counts the calls answered. *)
#[export] Instance counting_world : Collaborators nat := {|
  db_GetUndiscoveredHosts := λ _ w, (([], None), S w);
  db_UpdateHostLocation := λ _ _ _ _ w, ((true, None), S w);
  db_ResetHostLocationsByPort := λ _ _ w, (None, S w);
  db_ResetHostLocationsByDevice := λ _ w, (None, S w);
  dev_IsClosed := λ _ _, false;
  dev_SendARPProbe := λ _ _ _ w, (None, S w);
  dev_RemoveFlowByMAC := λ d _ w,
    (if bool_decide (dev_ID d = "2") then Some (errorString "removal failed")
     else None, S w);
  next_processor := λ _ w, (None, S w)
|}.

(** A second world: the store knows every host where it is (no update
    changes a location) and nothing fails. *)
#[export] Instance settled_world : Collaborators unit := {|
  db_GetUndiscoveredHosts := λ _ w, (([], None), w);
  db_UpdateHostLocation := λ _ _ _ _ w, ((false, None), w);
  db_ResetHostLocationsByPort := λ _ _ w, (None, w);
  db_ResetHostLocationsByDevice := λ _ w, (None, w);
  dev_IsClosed := λ _ _, false;
  dev_SendARPProbe := λ _ _ _ w, (None, w);
  dev_RemoveFlowByMAC := λ _ _ w, (None, w);
  next_processor := λ _ w, (None, w)
|}.

Definition dev1 : Device := {| dev_ID := "1" |}.
Definition dev2 : Device := {| dev_ID := "2" |}.
Definition dev3 : Device := {| dev_ID := "3" |}.
Definition finder3 : Finder := {| Devices := [dev1; dev2; dev3] |}.
Definition port1_7 : Port := {| port_Device := dev1; port_Number := 7 |}.

Definition host_mac : list byte := bytes [0x52; 0x54; 0; 0x12; 0x34; 0x56].
Definition other_mac : list byte := bytes [0x52; 0x54; 0; 0xaa; 0xbb; 0xcc].
Definition host_ip : list byte := bytes [10; 0; 0; 5].
Definition gw_ip : list byte := bytes [10; 0; 0; 1].

(** An ARP packet for Ethernet/IPv4 with the given operation and
    addresses (sender first). *)
Definition arp_packet (op : Z) (sha spa tha tpa : list byte) : list byte :=
  bytes [0; 1; 8; 0; 6; 4; 0; op] ++ sha ++ spa ++ tha ++ tpa.

Definition frame (type : Z) (payload : list byte) : Ethernet :=
  {| SrcMAC := other_mac; DstMAC := myMAC; eth_Type := type; Payload := payload |}.

(** A reply whose sender hardware address is the probe source, a reply
    from another sender, an ARP request, the first 8 bytes of an ARP request
    (operation 1, addresses cut off), and an IPv4 frame. *)
Definition reply_to_probe : Ethernet :=
  frame 0x0806 (arp_packet 2 myMAC gw_ip host_mac host_ip).
Definition reply_to_other : Ethernet :=
  frame 0x0806 (arp_packet 2 other_mac gw_ip host_mac host_ip).
Definition arp_request : Ethernet :=
  frame 0x0806 (arp_packet 1 other_mac gw_ip host_mac host_ip).
Definition arp_truncated : Ethernet :=
  frame 0x0806 (bytes [0; 1; 8; 0; 6; 4; 0; 1]).
Definition ipv4_frame : Ethernet := frame 0x0800 (bytes [0x45; 0; 0; 20]).

End Examples.

(** * Properties *)

(** ** The action model *)

Section ActionModel.

Import openflow.

Lemma invalid_mac_spec (mac : HardwareAddr) :
  invalid_mac mac = true ↔ nil_or_short mac.
Proof.
  unfold nil_or_short, invalid_mac, len. destruct mac as [bs|].
  - rewrite Z.ltb_lt. split.
    + intros Hlt. right. exists bs. split; [reflexivity | lia].
    + intros [Hnil | (bs' & Heq & Hlt)]; [discriminate | ].
      injection Heq as <-. lia.
  - split; [intros _; left; reflexivity | reflexivity].
Qed.

Lemma SetSrcMAC_rejected (r : BaseAction) (mac : HardwareAddr) :
  nil_or_short mac → SetSrcMAC r mac = (r, Some ErrInvalidAddress).
Proof.
  intros Hbad. apply invalid_mac_spec in Hbad.
  unfold SetSrcMAC. rewrite Hbad. reflexivity.
Qed.

Lemma SetDstMAC_rejected (r : BaseAction) (mac : HardwareAddr) :
  nil_or_short mac → SetDstMAC r mac = (r, Some ErrInvalidAddress).
Proof.
  intros Hbad. apply invalid_mac_spec in Hbad.
  unfold SetDstMAC. rewrite Hbad. reflexivity.
Qed.

(** C7.  A nil address or one shorter than 6 bytes makes [SetSrcMAC] and
    [SetDstMAC] fail with the invalid-address error and leaves the action
    as it was: both getters answer as before the call, so a field never set
    still reports present=false and a field set earlier still returns the
    value stored then. *)
Theorem failed_set_keeps_field (r : BaseAction) (mac : HardwareAddr) :
  nil_or_short mac →
  let src := SetSrcMAC r mac in
  let dst := SetDstMAC r mac in
  src.2 = Some ErrInvalidAddress ∧ dst.2 = Some ErrInvalidAddress ∧
  src.1 = r ∧ dst.1 = r ∧
  SrcMAC src.1 = SrcMAC r ∧ DstMAC src.1 = DstMAC r ∧
  SrcMAC dst.1 = SrcMAC r ∧ DstMAC dst.1 = DstMAC r ∧
  (srcMAC r = None → (SrcMAC src.1).1 = false) ∧
  (dstMAC r = None → (DstMAC dst.1).1 = false) ∧
  (∀ old, srcMAC r = Some old → SrcMAC src.1 = (true, old)) ∧
  (∀ old, dstMAC r = Some old → DstMAC dst.1 = (true, old)).
Proof.
  intros Hbad. cbn zeta.
  rewrite (SetSrcMAC_rejected r mac Hbad), (SetDstMAC_rejected r mac Hbad).
  cbn [fst snd]. unfold SrcMAC, DstMAC.
  repeat split; try reflexivity.
  - intros ->. reflexivity.
  - intros ->. reflexivity.
  - intros old ->. reflexivity.
  - intros old ->. reflexivity.
Qed.

(** C8, as worded, fails: an address of 7 bytes is stored by both setters
    and no error is returned. *)
Lemma seven_bytes_accepted :
  let mac := Some (Examples.bytes [2; 0; 0; 0; 0; 1; 9]) in
  SetSrcMAC NewBaseAction mac =
    ({| output := ∅; srcMAC := mac; dstMAC := None |}, None) ∧
  SetDstMAC NewBaseAction mac =
    ({| output := ∅; srcMAC := None; dstMAC := mac |}, None) ∧
  ¬ only_six_bytes_accepted.
Proof.
  cbn zeta. split; [reflexivity | split; [reflexivity | ]].
  intros Hclaim.
  destruct (Hclaim NewBaseAction (Some (Examples.bytes [2; 0; 0; 0; 0; 1; 9])))
    as [Hsrc _].
  - right. eexists. split; [reflexivity | ]. cbn. lia.
  - apply Hsrc. reflexivity.
Qed.

(** C8, amended.  [SetSrcMAC] and [SetDstMAC] reject exactly the nil
    address and the addresses shorter than 6 bytes; every address of 6
    bytes or more is accepted and stored as it was passed. *)
Theorem set_rejects_nil_or_short (r : BaseAction) (mac : HardwareAddr) :
  ((SetSrcMAC r mac).2 ≠ None ↔ nil_or_short mac) ∧
  ((SetDstMAC r mac).2 ≠ None ↔ nil_or_short mac) ∧
  ((SetSrcMAC r mac).2 = None → SrcMAC (SetSrcMAC r mac).1 = (true, default [] mac)) ∧
  ((SetDstMAC r mac).2 = None → DstMAC (SetDstMAC r mac).1 = (true, default [] mac)).
Proof.
  rewrite <- invalid_mac_spec. unfold SetSrcMAC, SetDstMAC.
  destruct (invalid_mac mac) eqn:E; cbn [fst snd].
  - repeat split; try discriminate; intros; congruence.
  - repeat split; try discriminate; try congruence.
    + intros _. destruct mac; [reflexivity | discriminate].
    + intros _. destruct mac; [reflexivity | discriminate].
Qed.

End ActionModel.

(** A 3-byte address after a 6-byte source address was stored: the set
    fails, the source is still the 6 bytes, the destination still absent. *)
Lemma failed_set_keeps_field_witness :
  let r := (openflow.SetSrcMAC openflow.NewBaseAction
              (Some (Examples.bytes [2; 0; 0; 0; 0; 1]))).1 in
  let bad := Some (Examples.bytes [2; 0; 0]) in
  openflow.nil_or_short bad ∧
  (openflow.SetSrcMAC r bad).2 = Some openflow.ErrInvalidAddress ∧
  openflow.SrcMAC (openflow.SetSrcMAC r bad).1
    = (true, Examples.bytes [2; 0; 0; 0; 0; 1]) ∧
  (openflow.DstMAC (openflow.SetDstMAC r bad).1).1 = false.
Proof.
  cbn zeta.
  assert (Hbad : openflow.nil_or_short (Some (Examples.bytes [2; 0; 0]))).
  { right. eexists. split; [reflexivity | cbn; lia]. }
  split; [exact Hbad | ].
  pose proof (failed_set_keeps_field
    (openflow.SetSrcMAC openflow.NewBaseAction
       (Some (Examples.bytes [2; 0; 0; 0; 0; 1]))).1
    (Some (Examples.bytes [2; 0; 0])) Hbad) as H.
  cbn zeta in H.
  destruct H as (Hsrc & _ & _ & _ & _ & _ & _ & _ & _ & Hdst & Hold & _).
  split; [exact Hsrc | split].
  - apply Hold. reflexivity.
  - apply Hdst. reflexivity.
Defined.

(** ** Bytes, slices and the header *)

Section Bytes.

Lemma byteZ_range (b : byte) : 0 <= byteZ b < 256.
Proof.
  unfold byteZ. pose proof (Byte.to_N_bounded b). lia.
Qed.

Lemma lor_shiftl_range (a b n : Z) :
  0 <= n → 0 <= a < 2 ^ n → 0 <= b →
  Z.lor a (Z.shiftl b n) = a + b * 2 ^ n.
Proof.
  intros Hn Ha Hb.
  rewrite Z.shiftl_mul_pow2 by lia.
  assert (Hdisjoint : Z.land a (b * 2 ^ n) = 0).
  { apply Z.bits_inj'. intros k Hk. rewrite Z.land_spec, Z.bits_0.
    destruct (Z.lt_ge_cases k n) as [Hlt | Hge].
    - rewrite Z.mul_pow2_bits_low by lia. apply andb_false_r.
    - destruct (Z.eq_dec a 0) as [-> | Hne]; [rewrite Z.bits_0; reflexivity | ].
      rewrite (Z.bits_above_log2 a k); [reflexivity | lia | ].
      apply Z.lt_le_trans with n; [ | lia].
      apply Z.log2_lt_pow2; lia. }
  rewrite <- Z.lxor_lor by exact Hdisjoint.
  symmetry. apply Z.add_nocarry_lxor. exact Hdisjoint.
Qed.

Lemma Uint16_value (b0 b1 : byte) (rest : list byte) :
  BigEndian.Uint16 (b0 :: b1 :: rest) = Ok (byteZ b0 * 256 + byteZ b1).
Proof.
  cbn [BigEndian.Uint16]. f_equal.
  pose proof (byteZ_range b0). pose proof (byteZ_range b1).
  rewrite lor_shiftl_range by lia. lia.
Qed.

Lemma len_nonneg {A} (s : list A) : 0 <= len s.
Proof. unfold len. lia. Qed.

Lemma slice_in {A} (s : list A) (lo hi : Z) :
  0 <= lo <= hi → hi <= len s →
  slice s lo hi = Ok (take (Z.to_nat (hi - lo)) (drop (Z.to_nat lo) s)).
Proof.
  intros Hlo Hhi. unfold slice.
  destruct (0 <=? lo) eqn:E1; [ | lia].
  destruct (lo <=? hi) eqn:E2; [ | lia].
  destruct (hi <=? len s) eqn:E3; [reflexivity | lia].
Qed.

Lemma slice_out {A} (s : list A) (lo hi : Z) :
  len s < hi → slice s lo hi = Panic.
Proof.
  intros Hhi. unfold slice.
  destruct (hi <=? len s) eqn:E3; [lia | ].
  rewrite andb_false_r. reflexivity.
Qed.

Lemma index_in {A} (s : list A) (i : Z) :
  0 <= i < len s → ∃ x, index s i = Ok x ∧ s !! Z.to_nat i = Some x.
Proof.
  intros Hi. unfold index.
  destruct (0 <=? i) eqn:E1; [ | lia].
  destruct (i <? len s) eqn:E2; [ | lia]. cbn [andb].
  destruct (s !! Z.to_nat i) as [x|] eqn:E.
  - exists x. split; reflexivity.
  - apply lookup_ge_None in E. unfold len in Hi. lia.
Qed.

Lemma len_take_drop {A} (s : list A) (lo n : nat) :
  (lo + n <= length s)%nat → length (take n (drop lo s)) = n.
Proof.
  intros H. rewrite length_take, length_drop. lia.
Qed.

Lemma Uint32_long (b : list byte) :
  (4 <= length b)%nat → ∃ v, BigEndian.Uint32 b = Ok v.
Proof.
  destruct b as [|b0 [|b1 [|b2 [|b3 rest]]]]; cbn [length]; try lia.
  intros _. eexists. reflexivity.
Qed.

Lemma Uint64_long (b : list byte) :
  (8 <= length b)%nat → ∃ v, BigEndian.Uint64 b = Ok v.
Proof.
  destruct b as [|b0 [|b1 [|b2 [|b3 [|b4 [|b5 [|b6 [|b7 rest]]]]]]]];
    cbn [length]; try lia.
  intros _. eexists. reflexivity.
Qed.

(** Reading a big-endian field that lies inside the buffer succeeds. *)
Lemma read32_in (s : list byte) (lo : Z) :
  0 <= lo → lo + 4 <= len s →
  ∃ v, (slice s lo (lo + 4) ≫= BigEndian.Uint32) = Ok v.
Proof.
  intros Hlo Hhi. rewrite slice_in by lia. cbn [mbind result_bind].
  apply Uint32_long. unfold len in Hhi. rewrite len_take_drop; lia.
Qed.

Lemma read64_in (s : list byte) (lo : Z) :
  0 <= lo → lo + 8 <= len s →
  ∃ v, (slice s lo (lo + 8) ≫= BigEndian.Uint64) = Ok v.
Proof.
  intros Hlo Hhi. rewrite slice_in by lia. cbn [mbind result_bind].
  apply Uint64_long. unfold len in Hhi. rewrite len_take_drop; lia.
Qed.

End Bytes.

Section HeaderProps.

Import openflow.

Lemma long_buffer_cons (data : list byte) :
  8 <= len data →
  ∃ b0 b1 b2 b3 b4 b5 b6 b7 rest,
    data = b0 :: b1 :: b2 :: b3 :: b4 :: b5 :: b6 :: b7 :: rest.
Proof.
  unfold len. intros H.
  destruct data as [|b0 [|b1 [|b2 [|b3 [|b4 [|b5 [|b6 [|b7 rest]]]]]]]];
    cbn [length] in H; try lia.
  repeat eexists.
Qed.

Lemma declared_length_cons (b0 b1 b2 b3 : byte) (rest : list byte) :
  declared_length (b0 :: b1 :: b2 :: b3 :: rest) = Some (byteZ b2 * 256 + byteZ b3).
Proof.
  unfold declared_length. rewrite slice_in.
  - cbn [Z.sub Z.to_nat Pos.to_nat Pos.iter_op Nat.add take drop Z.pos_sub Z.add
         Pos.add Pos.succ Z.opp Pos.pred_double].
    replace (Z.to_nat (4 - 2)) with 2%nat by lia.
    replace (Z.to_nat 2) with 2%nat by lia.
    cbn [take drop]. rewrite Uint16_value. reflexivity.
  - lia.
  - unfold len. cbn [length]. lia.
Qed.

Lemma declared_length_short (data : list byte) :
  len data < 4 → declared_length data = None.
Proof.
  intros H. unfold declared_length. rewrite slice_out by lia. reflexivity.
Qed.

Lemma declared_length_range (data : list byte) (l : Z) :
  declared_length data = Some l → 0 <= l < 65536 ∧ 4 <= len data.
Proof.
  destruct data as [|b0 [|b1 [|b2 [|b3 rest]]]];
    try (rewrite declared_length_short by (unfold len; cbn [length]; lia);
         discriminate).
  rewrite declared_length_cons. intros [= <-].
  pose proof (byteZ_range b2). pose proof (byteZ_range b3).
  unfold len. cbn [length]. lia.
Qed.

(** The header decoder on a buffer of at least 8 bytes. *)
Lemma Header_UnmarshalBinary_cons (b0 b1 b2 b3 b4 b5 b6 b7 : byte) (rest : list byte) :
  let data := b0 :: b1 :: b2 :: b3 :: b4 :: b5 :: b6 :: b7 :: rest in
  let l := byteZ b2 * 256 + byteZ b3 in
  ∃ x,
    Header_UnmarshalBinary data =
      if (l <? HeaderSize) || (len data <? l) then Err ErrInvalidPacketLength
      else Ok {| Version := byteZ b0; Type_ := byteZ b1; Length := l; XID := x |}.
Proof.
  intros data l. unfold Header_UnmarshalBinary.
  assert (Hlen : len data = 8 + len rest) by (unfold len, data; cbn [length]; lia).
  pose proof (len_nonneg rest) as Hrest.
  destruct (len data <? HeaderSize) eqn:E; [unfold HeaderSize in E; lia | ].
  destruct (index_in data 0 ltac:(lia)) as (v & -> & Hv).
  destruct (index_in data 1 ltac:(lia)) as (t & -> & Ht).
  cbn in Hv, Ht. injection Hv as <-. injection Ht as <-.
  cbn [mbind result_bind].
  rewrite (slice_in data 2 4) by lia.
  replace (Z.to_nat (4 - 2)) with 2%nat by lia.
  replace (Z.to_nat 2) with 2%nat by lia.
  cbn [mbind result_bind take drop data]. rewrite Uint16_value.
  rewrite (slice_in _ 4 8) by (fold data; lia).
  replace (Z.to_nat (8 - 4)) with 4%nat by lia.
  replace (Z.to_nat 4) with 4%nat by lia.
  cbn [mbind result_bind take drop BigEndian.Uint32].
  eexists. fold data. fold l. reflexivity.
Qed.

Lemma Header_UnmarshalBinary_short (data : list byte) :
  len data < 8 → Header_UnmarshalBinary data = Err ErrInvalidPacketLength.
Proof.
  intros H. unfold Header_UnmarshalBinary, HeaderSize.
  destruct (len data <? 8) eqn:E; [reflexivity | lia].
Qed.

(** The header decoder never leaves the buffer: it returns a header or
    [ErrInvalidPacketLength]. *)
Lemma Header_UnmarshalBinary_cases (data : list byte) :
  Header_UnmarshalBinary data = Err ErrInvalidPacketLength ∨
  ∃ h, Header_UnmarshalBinary data = Ok h ∧
       declared_length data = Some (Length h) ∧
       8 <= Length h <= len data ∧ Length h < 65536 ∧
       ∃ t, data !! 1%nat = Some t ∧ Type_ h = byteZ t.
Proof.
  destruct (Z.lt_ge_cases (len data) 8) as [Hshort | Hlong].
  - left. apply Header_UnmarshalBinary_short. exact Hshort.
  - destruct (long_buffer_cons data Hlong)
      as (b0 & b1 & b2 & b3 & b4 & b5 & b6 & b7 & rest & ->).
    destruct (Header_UnmarshalBinary_cons b0 b1 b2 b3 b4 b5 b6 b7 rest) as [x Hx].
    cbn zeta in Hx. rewrite Hx. unfold HeaderSize in *.
    destruct (_ || _) eqn:E; [left; reflexivity | right].
    eexists. split; [reflexivity | ]. cbn [Length Type_].
    rewrite declared_length_cons.
    pose proof (byteZ_range b2). pose proof (byteZ_range b3).
    apply orb_false_iff in E as [E1 E2].
    repeat split; try lia.
    exists b1. split; reflexivity.
Qed.

Lemma Header_UnmarshalBinary_accepts (data : list byte) (l : Z) :
  declared_length data = Some l → 8 <= l <= len data →
  ∃ h, Header_UnmarshalBinary data = Ok h ∧ Length h = l.
Proof.
  intros Hl Hrange.
  destruct (long_buffer_cons data ltac:(lia))
    as (b0 & b1 & b2 & b3 & b4 & b5 & b6 & b7 & rest & ->).
  rewrite declared_length_cons in Hl. injection Hl as <-.
  destruct (Header_UnmarshalBinary_cons b0 b1 b2 b3 b4 b5 b6 b7 rest) as [x Hx].
  cbn zeta in Hx. rewrite Hx. unfold HeaderSize in *.
  destruct (_ || _) eqn:E.
  - apply orb_true_iff in E as [E | E]; lia.
  - eexists. split; reflexivity.
Qed.

(** A buffer shorter than the length its header declares, or declaring
    less than a header, is [ErrInvalidPacketLength]. *)
Lemma Header_UnmarshalBinary_rejects (data : list byte) (l : Z) :
  declared_length data = Some l → l < 8 ∨ len data < l →
  Header_UnmarshalBinary data = Err ErrInvalidPacketLength.
Proof.
  intros Hl Hbad.
  destruct (Header_UnmarshalBinary_cases data) as [He | (h & He & Hd & Hr & _)].
  - exact He.
  - rewrite Hd in Hl. injection Hl as <-. lia.
Qed.

End HeaderProps.

(** ** The OpenFlow 1.0 codec *)

Section CodecProps.

Import openflow of10.

Context {Port GetConfigReply DescriptionReply PortStatus FlowRemoved : Type}.
Context `{!BinaryUnmarshaler Port, !BinaryUnmarshaler GetConfigReply,
          !BinaryUnmarshaler DescriptionReply, !BinaryUnmarshaler PortStatus,
          !BinaryUnmarshaler FlowRemoved}.

Lemma first_failure_Ok {A} (rs : list (result A)) (l : list A) :
  first_failure rs = Ok l ↔ rs = Ok <$> l.
Proof.
  revert l. induction rs as [|r rs IH]; intros l; cbn [first_failure].
  - split.
    + intros [= <-]. reflexivity.
    + destruct l; [reflexivity | discriminate].
  - destruct r as [a| |]; cbn [mbind result_bind].
    + destruct (first_failure rs) as [l'| |] eqn:E; cbn [mbind result_bind].
      * split.
        -- intros [= <-]. cbn. f_equal. apply IH. reflexivity.
        -- destruct l as [|a' l'']; [discriminate | ].
           cbn. intros [= -> Hrs]. apply IH in Hrs. congruence.
      * split; [discriminate | ].
        destruct l as [|a' l'']; [discriminate | ].
        cbn. intros [= -> Hrs]. apply IH in Hrs. discriminate.
      * split; [discriminate | ].
        destruct l as [|a' l'']; [discriminate | ].
        cbn. intros [= -> Hrs]. apply IH in Hrs. discriminate.
    + split; [discriminate | destruct l; discriminate].
    + split; [discriminate | destruct l; discriminate].
Qed.

Lemma first_failure_Panic {A} (rs : list (result A)) :
  first_failure rs = Panic → Panic ∈ rs.
Proof.
  induction rs as [|r rs IH]; cbn [first_failure]; [discriminate | ].
  destruct r as [a| |]; cbn [mbind result_bind].
  - destruct (first_failure rs); cbn [mbind result_bind]; try discriminate.
    intros _. right. apply IH. reflexivity.
  - discriminate.
  - intros _. left.
Qed.

(** The slice expressions of the port loop stay inside the buffer and cut
    out the window of the wire layout: the uint16 offset does not wrap. *)
Lemma port_window_in (data : list byte) (i : nat) :
  32 + 48 * (Z.of_nat i + 1) <= len data → (i <= 1364)%nat →
  port_window data (Z.of_nat i) = Ok (wire_window data i).
Proof.
  intros Hlen Hi. unfold port_window, slice_from, uint16.
  rewrite (Z.mod_small (Z.of_nat i * 48)) by lia.
  rewrite Z.mod_small by lia.
  rewrite slice_in by lia. cbn [mbind result_bind].
  replace (Z.to_nat (32 + Z.of_nat i * 48)) with (32 + 48 * i)%nat by lia.
  rewrite take_ge by (rewrite length_drop; unfold len; lia).
  rewrite slice_in.
  - replace (Z.to_nat (48 - 0)) with 48%nat by lia.
    replace (Z.to_nat 0) with 0%nat by lia.
    reflexivity.
  - lia.
  - unfold len in *. rewrite length_drop. lia.
Qed.

(** The loop of [FeaturesReply.UnmarshalBinary], entered at index [i] with
    the ports decoded so far: it decodes the remaining windows in order and
    stops at the first decode that fails. *)
Lemma decode_ports_spec (data : list byte) (n : nat) :
  ∀ (i : nat) (decoded : list Port),
    length decoded = i →
    32 + 48 * Z.of_nat (i + n) <= len data → (i + n <= 1364)%nat →
    decode_ports n data (Z.of_nat i) ((Some <$> decoded) ++ replicate n None) =
      (ps ← first_failure
              ((λ j, UnmarshalBinary new (wire_window data j)) <$> seq i n);
       Ok (Some <$> (decoded ++ ps))).
Proof.
  induction n as [|n IH]; intros i decoded Hdec Hlen Hi.
  - cbn. rewrite !app_nil_r. reflexivity.
  - cbn [decode_ports replicate seq fmap list_fmap first_failure].
    rewrite port_window_in by lia. cbn [mbind result_bind].
    destruct (UnmarshalBinary new (wire_window data i)) as [p| |];
      cbn [mbind result_bind]; try reflexivity.
    replace (uint16 (Z.of_nat i + 1)) with (Z.of_nat (S i))
      by (unfold uint16; rewrite Z.mod_small; lia).
    rewrite Nat2Z.id.
    replace (<[i:=Some p]> ((Some <$> decoded) ++ None :: replicate n None))
      with ((Some <$> (decoded ++ [p])) ++ replicate n None).
    + rewrite IH; [ | rewrite length_app; cbn; lia | lia | lia].
      change (list_fmap nat (result Port)) with (@fmap list _ nat (result Port)).
      destruct (first_failure _) as [ps| |]; cbn [mbind result_bind]; try reflexivity.
      rewrite <- app_assoc. reflexivity.
    + rewrite insert_app_r_alt by (rewrite length_fmap; lia).
      rewrite length_fmap, Hdec, Nat.sub_diag. cbn [insert list_insert].
      rewrite fmap_app, <- app_assoc. reflexivity.
Qed.

(** The ports a features reply decodes to: with a declared length of at
    least 32 that the buffer holds, the fixed fields are read inside the
    buffer and the port list is the receiver's when there is no room for a
    port record, and the records of the wire otherwise. *)
Lemma FeaturesReply_UnmarshalBinary_ports (r : FeaturesReply Port)
    (data : list byte) (l : Z) :
  declared_length data = Some l → 32 <= l <= len data →
  Ports <$> FeaturesReply_UnmarshalBinary r data =
    match Z.to_nat ((l - 32) / 48) with
    | O => Ok (Ports r)
    | S n' => fmap (M := list) Some <$> first_failure (wire_ports data (S n'))
    end.
Proof.
  intros Hl Hrange.
  pose proof (declared_length_range data l Hl) as [Hl16 _].
  destruct (Header_UnmarshalBinary_accepts data l Hl ltac:(lia)) as (h & Hh & Hlh).
  unfold FeaturesReply_UnmarshalBinary.
  cbn [UnmarshalBinary Header_unmarshaler]. rewrite Hh. cbn [mbind result_bind].
  rewrite Hlh.
  destruct ((l <? 32) || (len data <? l)) eqn:E;
    [apply orb_true_iff in E as [E | E]; lia | ].
  assert (∃ v, (slice data 8 16 ≫= BigEndian.Uint64) = Ok v) as [dpid Hdpid]
    by (apply (read64_in data 8); lia).
  assert (∃ v, (slice data 16 20 ≫= BigEndian.Uint32) = Ok v) as [nbuf Hnbuf]
    by (apply (read32_in data 16); lia).
  destruct (index_in data 20 ltac:(lia)) as (ntab & Hntab & _).
  assert (∃ v, (slice data 24 28 ≫= BigEndian.Uint32) = Ok v) as [caps Hcaps]
    by (apply (read32_in data 24); lia).
  assert (∃ v, (slice data 28 32 ≫= BigEndian.Uint32) = Ok v) as [acts Hacts]
    by (apply (read32_in data 28); lia).
  unfold mbind in Hdpid, Hnbuf, Hcaps, Hacts.
  destruct (slice data 8 16); try discriminate. cbn [mbind result_bind].
  cbn [result_bind] in Hdpid. rewrite Hdpid. cbn [mbind result_bind].
  destruct (slice data 16 20); try discriminate. cbn [mbind result_bind].
  cbn [result_bind] in Hnbuf. rewrite Hnbuf. cbn [mbind result_bind].
  rewrite Hntab. cbn [mbind result_bind].
  destruct (slice data 24 28); try discriminate. cbn [mbind result_bind].
  cbn [result_bind] in Hcaps. rewrite Hcaps. cbn [mbind result_bind].
  destruct (slice data 28 32); try discriminate. cbn [mbind result_bind].
  cbn [result_bind] in Hacts. rewrite Hacts. cbn [mbind result_bind].
  replace (uint16 (l - 32)) with (l - 32)
    by (unfold uint16; rewrite Z.mod_small; lia).
  assert (Hn : 0 <= (l - 32) / 48 <= 1364).
  { split; [apply Z.div_pos; lia | ].
    enough ((l - 32) / 48 < 1365) by lia.
    apply Z.div_lt_upper_bound; lia. }
  assert (Hroom : 48 * ((l - 32) / 48) <= l - 32)
    by (apply Z.mul_div_le; lia).
  destruct ((l - 32) / 48 =? 0) eqn:E0.
  - apply Z.eqb_eq in E0. rewrite E0. reflexivity.
  - apply Z.eqb_neq in E0.
    destruct (Z.to_nat ((l - 32) / 48)) as [|n'] eqn:En; [lia | ].
    pose proof (decode_ports_spec data (S n') 0 [] eq_refl) as Hloop.
    cbn [fmap list_fmap app] in Hloop. change (Z.of_nat 0) with 0 in Hloop.
    rewrite Hloop by lia.
    unfold wire_ports.
    change (list_fmap nat (result Port)) with (@fmap list _ nat (result Port)).
    destruct (first_failure _); reflexivity.
Qed.

Local Abbreviation parse :=
  (@ParseMessage Port GetConfigReply DescriptionReply PortStatus FlowRemoved _ _ _ _ _).
Local Abbreviation incoming :=
  (Incoming Port GetConfigReply DescriptionReply PortStatus FlowRemoved).

Lemma FeaturesReply_UnmarshalBinary_below_32 (r : FeaturesReply Port)
    (data : list byte) (l : Z) :
  declared_length data = Some l → l < 32 →
  FeaturesReply_UnmarshalBinary r data = Err ErrInvalidPacketLength.
Proof.
  intros Hl Hlt. unfold FeaturesReply_UnmarshalBinary.
  cbn [UnmarshalBinary Header_unmarshaler].
  destruct (Header_UnmarshalBinary_cases data) as [-> | (h & -> & Hd & _)];
    [reflexivity | ].
  cbn [mbind result_bind].
  assert (Length h = l) as -> by congruence.
  destruct (l <? 32) eqn:E; [reflexivity | lia].
Qed.

(** Decoding a features reply never leaves the buffer, whatever the
    buffer, as long as the port decoder stays inside its 48-byte window. *)
Lemma FeaturesReply_UnmarshalBinary_in_bounds (r : FeaturesReply Port)
    (data : list byte) :
  (∀ i, UnmarshalBinary (T := Port) new (wire_window data i) ≠ Panic) →
  FeaturesReply_UnmarshalBinary r data ≠ Panic.
Proof.
  intros Hport Hpanic.
  destruct (Header_UnmarshalBinary_cases data) as [He | (h & He & Hd & Hr & _)].
  - unfold FeaturesReply_UnmarshalBinary in Hpanic.
    cbn [UnmarshalBinary Header_unmarshaler] in Hpanic.
    rewrite He in Hpanic. discriminate.
  - destruct (Z.lt_ge_cases (Length h) 32) as [Hlt | Hge].
    + rewrite (FeaturesReply_UnmarshalBinary_below_32 r data _ Hd Hlt) in Hpanic.
      discriminate.
    + pose proof (FeaturesReply_UnmarshalBinary_ports r data _ Hd ltac:(lia)) as Hp.
      rewrite Hpanic in Hp. destruct (Z.to_nat _) as [|n']; [discriminate | ].
      destruct (first_failure _) eqn:E; try discriminate.
      apply first_failure_Panic in E. unfold wire_ports in E.
      apply list_elem_of_fmap in E as (i & Hi & _).
      apply (Hport i). symmetry. exact Hi.
Qed.

(** C6.  With a declared length below 32 the features decode fails with
    [ErrInvalidPacketLength].  With a declared length [l] of at least 32
    that the buffer holds, a decode that succeeds yields exactly
    [(l - 32) / 48] ports, port [i] being the decoded 48-byte window at
    offset [32 + 48 * i]; the decode succeeds whenever each of these windows
    decodes; a length of exactly 32 yields the empty port list, and a length
    of [32 + 48 * k] gives the count [k]. *)
Theorem features_reply_port_count (data : list byte) (l : Z) :
  declared_length data = Some l →
  (l < 32 → ∀ r : FeaturesReply Port,
     FeaturesReply_UnmarshalBinary r data = Err ErrInvalidPacketLength) ∧
  (32 <= l <= len data →
     let n := Z.to_nat ((l - 32) / 48) in
     (∀ v : FeaturesReply Port,
        FeaturesReply_UnmarshalBinary new data = Ok v →
        ∃ ps, Ports v = Some <$> ps ∧ length ps = n ∧
              wire_ports data n = Ok <$> ps) ∧
     (∀ ps : list Port,
        wire_ports data n = Ok <$> ps →
        ∃ v, FeaturesReply_UnmarshalBinary new data = Ok v ∧
             Ports v = Some <$> ps) ∧
     (l = 32 →
        ∃ v : FeaturesReply Port,
          FeaturesReply_UnmarshalBinary new data = Ok v ∧ Ports v = []) ∧
     (∀ k, 1 <= k → l = 32 + 48 * k → n = Z.to_nat k)).
Proof.
  intros Hl. split.
  { intros Hlt r. exact (FeaturesReply_UnmarshalBinary_below_32 r data l Hl Hlt). }
  intros Hrange.
  pose proof (FeaturesReply_UnmarshalBinary_ports new data l Hl Hrange) as Hp.
  cbn zeta. remember (Z.to_nat ((l - 32) / 48)) as n eqn:Hn.
  assert (Hwire : length (wire_ports (Port := Port) data n) = n)
    by (unfold wire_ports; rewrite length_fmap, length_seq; reflexivity).
  repeat split.
  - intros v Hv. rewrite Hv in Hp. cbn [fmap result_fmap] in Hp.
    destruct n as [|n'].
    + injection Hp as Hp. exists []. rewrite Hp. repeat split.
    + destruct (first_failure (wire_ports data (S n'))) as [ps| |] eqn:E;
        try discriminate.
      cbn [fmap result_fmap] in Hp. injection Hp as Hp.
      apply first_failure_Ok in E.
      exists ps. split; [exact Hp | split; [ | exact E]].
      rewrite E, length_fmap in Hwire. exact Hwire.
  - intros ps Hps. destruct n as [|n'].
    + destruct ps; [ | discriminate].
      destruct (FeaturesReply_UnmarshalBinary new data) as [v| |];
        try discriminate.
      exists v. split; [reflexivity | ]. cbn [fmap result_fmap] in Hp.
      injection Hp as Hp. exact Hp.
    + apply first_failure_Ok in Hps. rewrite Hps in Hp.
      destruct (FeaturesReply_UnmarshalBinary new data) as [v| |];
        try discriminate.
      exists v. split; [reflexivity | ]. cbn [fmap result_fmap] in Hp.
      injection Hp as Hp. exact Hp.
  - intros ->. change (Z.to_nat ((32 - 32) / 48)) with 0%nat in Hn. subst n.
    destruct (FeaturesReply_UnmarshalBinary new data) as [v| |];
      try discriminate.
    exists v. split; [reflexivity | ]. cbn [fmap result_fmap] in Hp.
    injection Hp as Hp. exact Hp.
  - intros k Hk ->. subst n. f_equal.
    replace (32 + 48 * k - 32) with (k * 48) by lia.
    apply Z.div_mul. lia.
Qed.

Lemma stats_subtype_read (data : list byte) (st : Z) :
  stats_subtype data = Some st →
  (slice data 8 10 ≫= BigEndian.Uint16) = Ok st.
Proof.
  unfold stats_subtype.
  destruct data as [|b0 [|b1 [|b2 [|b3 [|b4 [|b5 [|b6 [|b7 [|b8 [|b9 rest]]]]]]]]]];
    cbn [lookup list_lookup]; try discriminate.
  intros [= <-]. rewrite slice_in; [ | lia | unfold len; cbn [length]; lia].
  replace (Z.to_nat (10 - 8)) with 2%nat by lia.
  replace (Z.to_nat 8) with 8%nat by lia.
  cbn [take drop mbind result_bind]. apply Uint16_value.
Qed.

Lemma stats_subtype_None (data : list byte) :
  stats_subtype data = None ↔ len data < 10.
Proof.
  unfold stats_subtype, len.
  destruct data as [|b0 [|b1 [|b2 [|b3 [|b4 [|b5 [|b6 [|b7 [|b8 [|b9 rest]]]]]]]]]];
    cbn [lookup list_lookup length]; split; intros H; try reflexivity;
    try discriminate; lia.
Qed.

(** C9.  When the header of a buffer decodes and its message type is none
    of the types [ParseMessage] has a case for, or it is a statistics reply
    whose sub-type (the 16 bits at offset 8) is not a known one,
    [ParseMessage] returns [ErrUnsupportedMessage], hence no message. *)
Theorem unsupported_message (data : list byte) (msg : Message) :
  Message_UnmarshalBinary data = Ok msg →
  registered (Message_Type msg) = false ∨
    (Message_Type msg = OFPT_STATS_REPLY ∧
     ∃ st, stats_subtype data = Some st ∧ st ≠ OFPST_DESC) →
  parse data = Err ErrUnsupportedMessage.
Proof.
  intros Hmsg Hkind. unfold ParseMessage. rewrite Hmsg.
  cbn [mbind result_bind]. unfold select_incoming.
  destruct Hkind as [Hreg | (Hstats & st & Hst & Hne)].
  - unfold registered in Hreg. apply bool_decide_eq_false in Hreg.
    rewrite !elem_of_cons, elem_of_nil in Hreg.
    repeat match goal with
           | |- context [?a =? ?b] =>
               destruct (Z.eqb_spec a b); [exfalso; apply Hreg; tauto | ]
           end.
    reflexivity.
  - rewrite Hstats. cbn [Z.eqb OFPT_STATS_REPLY OFPT_FEATURES_REPLY
                         OFPT_GET_CONFIG_REPLY Pos.eqb].
    pose proof (stats_subtype_read data st Hst) as Hread.
    unfold mbind in Hread |- *.
    destruct (slice data 8 10); try discriminate. cbn [result_bind] in Hread |- *.
    rewrite Hread. cbn [result_bind].
    destruct (Z.eqb_spec st OFPST_DESC); [contradiction | reflexivity].
Qed.

(** A buffer shorter than the length its header declares never reaches a
    decoder: [ParseMessage] returns [ErrInvalidPacketLength] from the header
    decode. *)
Lemma ParseMessage_short_buffer (data : list byte) (l : Z) :
  declared_length data = Some l → len data < l →
  parse data = Err ErrInvalidPacketLength.
Proof.
  intros Hl Hshort. unfold ParseMessage, Message_UnmarshalBinary.
  rewrite (Header_UnmarshalBinary_rejects data l Hl) by (right; exact Hshort).
  reflexivity.
Qed.

(** So does a buffer too short to hold a header. *)
Lemma ParseMessage_no_header (data : list byte) :
  len data < 8 → parse data = Err ErrInvalidPacketLength.
Proof.
  intros Hshort. unfold ParseMessage, Message_UnmarshalBinary.
  rewrite Header_UnmarshalBinary_short by exact Hshort. reflexivity.
Qed.

(** C1.  [ParseMessage] reads the statistics sub-type with [data[8:10]]
    before any check on the body: on a statistics reply that is a header and
    nothing else (8 bytes, declared length 8) the header decodes and the read
    leaves the buffer. *)
Theorem stats_subtype_read_out_of_bounds :
  len Examples.stats_header_only = 8 ∧
  declared_length Examples.stats_header_only = Some 8 ∧
  is_Ok (Message_UnmarshalBinary Examples.stats_header_only) = true ∧
  parse Examples.stats_header_only = Panic.
Proof. repeat split. Qed.

Local Ltac type_clash :=
  unfold Message_Type, OFPT_FEATURES_REPLY, OFPT_GET_CONFIG_REPLY,
    OFPT_STATS_REPLY, OFPT_PORT_STATUS, OFPT_FLOW_REMOVED in *;
  cbn [header] in *; lia.

(** The read of the sub-type is the only place: with decoders that stay in
    bounds, [ParseMessage] leaves the buffer exactly on a statistics reply
    of fewer than 10 bytes whose header decodes. *)
Lemma ParseMessage_out_of_bounds_iff (data : list byte) :
  (∀ (v : incoming) d, Incoming_UnmarshalBinary v d ≠ Panic) →
  parse data = Panic ↔
  ∃ msg, Message_UnmarshalBinary data = Ok msg ∧
         Message_Type msg = OFPT_STATS_REPLY ∧ len data < 10.
Proof.
  intros Hdec. unfold ParseMessage, Message_UnmarshalBinary.
  destruct (Header_UnmarshalBinary_cases data) as [-> | (h & -> & _)].
  { cbn [mbind result_bind]. split; [discriminate | ].
    intros (msg & Hmsg & _). discriminate. }
  cbn [mbind result_bind]. unfold select_incoming, Message_Type.
  cbn [header].
  assert (Hsel : ∀ v : incoming,
            (Ok v ≫= λ v, Incoming_UnmarshalBinary v data) = Panic ↔ False).
  { intros v. cbn [mbind result_bind]. split; [apply Hdec | contradiction]. }
  destruct (Z.eqb_spec (Type_ h) OFPT_FEATURES_REPLY) as [E1 | E1].
  { rewrite Hsel. split; [contradiction | ].
    intros (msg & [= <-] & Ht & _). type_clash. }
  destruct (Z.eqb_spec (Type_ h) OFPT_GET_CONFIG_REPLY) as [E2 | E2].
  { rewrite Hsel. split; [contradiction | ].
    intros (msg & [= <-] & Ht & _). type_clash. }
  destruct (Z.eqb_spec (Type_ h) OFPT_STATS_REPLY) as [E3 | E3].
  { destruct (stats_subtype data) as [st|] eqn:Est.
    - pose proof (stats_subtype_read data st Est) as Hread.
      unfold mbind in Hread |- *.
      destruct (slice data 8 10); try discriminate.
      cbn [result_bind] in Hread |- *. rewrite Hread. cbn [result_bind].
      assert (Hlen : ¬ len data < 10)
        by (rewrite <- stats_subtype_None; congruence).
      destruct (st =? OFPST_DESC).
      + fold (mbind (M := result) (λ v : incoming, Incoming_UnmarshalBinary v data)
                (Ok (InDescriptionReply new))).
        rewrite Hsel. split; [contradiction | ].
        intros (msg & _ & _ & Hlt). contradiction.
      + cbn [result_bind]. split; [discriminate | ].
        intros (msg & _ & _ & Hlt). contradiction.
    - apply stats_subtype_None in Est.
      rewrite slice_out by lia. cbn [mbind result_bind].
      split; [ | reflexivity].
      intros _. eexists. split; [reflexivity | ]. split; [exact E3 | exact Est]. }
  destruct (Z.eqb_spec (Type_ h) OFPT_PORT_STATUS) as [E4 | E4].
  { rewrite Hsel. split; [contradiction | ].
    intros (msg & [= <-] & Ht & _). type_clash. }
  destruct (Z.eqb_spec (Type_ h) OFPT_FLOW_REMOVED) as [E5 | E5].
  { rewrite Hsel. split; [contradiction | ].
    intros (msg & [= <-] & Ht & _). type_clash. }
  cbn [mbind result_bind]. split; [discriminate | ].
  intros (msg & [= <-] & Ht & _). type_clash.
Qed.

End CodecProps.

(** ** The discovery engine: packet handling *)

Section PacketIn.

Import openflow discovery.

Context {W : Type} `{!Collaborators W} `{!BinaryUnmarshaler ARP}.

Local Abbreviation state := (discovery.state W).

Lemma calls_since_app (s s' : state) (cs : list call) :
  calls s' = calls s ++ cs → calls_since s s' = cs.
Proof.
  intros Hcalls. unfold calls_since. rewrite Hcalls. apply drop_app_length.
Qed.

Lemma calls_since_refl (s : state) : calls_since s s = [].
Proof.
  unfold calls_since. apply drop_all.
Qed.

(** A call on a collaborator, then the rest of the method. *)
Lemma bind_collab {A B} (c : call) (f : W → A * W) (k : A → M W B) (s : state) :
  bindM (collab c f) k s =
    k (f (world s)).1
      {| canceller := canceller s; tasks := tasks s; world := (f (world s)).2;
         calls := calls s ++ [c] |}.
Proof.
  unfold bindM, collab. destruct (f (world s)) as [a w']. reflexivity.
Qed.

(** Forwarding logs one call, the event as it was received, and returns
    what the next link returned. *)
Lemma forward_calls (ev : forwarded) (s : state) :
  calls (forward ev s).2 = calls s ++ [CallNext ev] ∧
  (forward ev s).1 =
    match (next_processor ev (world s)).1 with
    | Some err => Err err
    | None => Ok tt
    end.
Proof.
  unfold forward. rewrite bind_collab.
  destruct (next_processor ev (world s)).1 as [err|]; cbn; split; reflexivity.
Qed.

(** The cascade attempts the removal once on each device of the list, in
    order, whatever each attempt answers. *)
Lemma remove_flows_calls (devices : list Device) (mac : list byte) (s : state) :
  (remove_flows devices mac s).1 = Ok tt ∧
  calls (remove_flows devices mac s).2 =
    calls s ++ ((λ d, CallRemoveFlowByMAC d mac) <$> devices).
Proof.
  revert s. induction devices as [|d ds IH]; intros s.
  - cbn. rewrite app_nil_r. split; reflexivity.
  - cbn [remove_flows]. rewrite bind_collab.
    destruct (IH {| canceller := canceller s; tasks := tasks s;
                    world := (dev_RemoveFlowByMAC d mac (world s)).2;
                    calls := calls s ++ [CallRemoveFlowByMAC d mac] |})
      as [Hret Hcalls].
    split; [exact Hret | ].
    rewrite Hcalls. cbn [calls fmap list_fmap]. rewrite <- app_assoc. reflexivity.
Qed.

Lemma count_remove_calls (devices : list Device) (mac : list byte) (d : Device) :
  length (filter (λ c, c = CallRemoveFlowByMAC d mac)
            ((λ d', CallRemoveFlowByMAC d' mac) <$> devices))
  = length (filter (λ d', d' = d) devices).
Proof.
  induction devices as [|d' ds IH]; [reflexivity | ].
  cbn [fmap list_fmap]. destruct (decide (d' = d)) as [-> | Hne].
  - rewrite !filter_cons_True by reflexivity. cbn [length]. f_equal. exact IH.
  - rewrite !filter_cons_False by congruence. exact IH.
Qed.

(** [OnPacketIn] on a frame that is an ARP reply, unfolded up to the check
    of the sender. *)
Lemma OnPacketIn_reply (finder : Finder) (ingress : Port) (eth : Ethernet)
    (arp : ARP) (s : state) :
  eth_Type eth = 0x0806 → UnmarshalBinary new (Payload eth) = Ok arp →
  Operation arp = 2 →
  OnPacketIn finder ingress eth s =
    (if negb (bytes_Equal (SHA arp) myMAC) then ret tt
     else
       match ParseUint (dev_ID (port_Device ingress)) with
       | None =>
           fail (errorString ("invalid device ID: " +:+ dev_ID (port_Device ingress)))
       | Some swDPID =>
           bindM
             (collab (CallUpdateHostLocation (THA arp) (TPA arp) swDPID
                        (uint16 (port_Number ingress)))
                     (db_UpdateHostLocation (THA arp) (TPA arp) swDPID
                        (uint16 (port_Number ingress))))
             (λ r, match r.2 with
                   | Some err => fail err
                   | None =>
                       if r.1 then remove_flows (Devices finder) (THA arp)
                       else ret tt
                   end)
       end) s.
Proof.
  intros Htype Hdec Hop. unfold OnPacketIn.
  rewrite Htype. cbn [Z.eqb Pos.eqb negb].
  unfold bindM at 1, decode_ARP. rewrite Hdec, Hop. reflexivity.
Qed.

(** C3.  An ARP reply whose sender hardware address is not the probe
    source is dropped: [OnPacketIn] returns nil and leaves the state as it
    was, so it makes no call at all, neither a location update on the store
    nor a forward to the next link. *)
Theorem foreign_reply_dropped (finder : Finder) (ingress : Port)
    (eth : Ethernet) (arp : ARP) (s : state) :
  eth_Type eth = 0x0806 →
  UnmarshalBinary new (Payload eth) = Ok arp →
  Operation arp = 2 →
  SHA arp ≠ myMAC →
  OnPacketIn finder ingress eth s = (Ok tt, s) ∧
  calls_since s (OnPacketIn finder ingress eth s).2 = [].
Proof.
  intros Htype Hdec Hop Hsha.
  rewrite (OnPacketIn_reply finder ingress eth arp s Htype Hdec Hop).
  unfold bytes_Equal. rewrite bool_decide_eq_false_2 by exact Hsha.
  cbn [negb ret snd]. split; [reflexivity | apply calls_since_refl].
Qed.

(** C4.  When the store answers a verified reply's location update with
    updated=true and no error, [OnPacketIn] returns nil after the update and
    one [RemoveFlowByMAC] call for each device of [finder.Devices()], in that
    order, with the reply's target hardware address, whatever the removals
    answer. *)
Theorem relocation_removes_flows_everywhere (finder : Finder) (ingress : Port)
    (eth : Ethernet) (arp : ARP) (swDPID : Z) (s : state) :
  eth_Type eth = 0x0806 →
  UnmarshalBinary new (Payload eth) = Ok arp →
  Operation arp = 2 →
  SHA arp = myMAC →
  ParseUint (dev_ID (port_Device ingress)) = Some swDPID →
  (db_UpdateHostLocation (THA arp) (TPA arp) swDPID
     (uint16 (port_Number ingress)) (world s)).1 = (true, None) →
  (OnPacketIn finder ingress eth s).1 = Ok tt ∧
  calls_since s (OnPacketIn finder ingress eth s).2 =
    CallUpdateHostLocation (THA arp) (TPA arp) swDPID (uint16 (port_Number ingress))
    :: ((λ d, CallRemoveFlowByMAC d (THA arp)) <$> Devices finder) ∧
  ∀ d, length (filter (λ c, c = CallRemoveFlowByMAC d (THA arp))
                 (calls_since s (OnPacketIn finder ingress eth s).2))
       = length (filter (λ d', d' = d) (Devices finder)).
Proof.
  intros Htype Hdec Hop Hsha Hid Hupd.
  rewrite (OnPacketIn_reply finder ingress eth arp s Htype Hdec Hop).
  unfold bytes_Equal. rewrite bool_decide_eq_true_2 by exact Hsha.
  cbn [negb]. rewrite Hid, bind_collab, Hupd. cbn [fst snd].
  match goal with
  | |- context [remove_flows ?ds ?mac ?s0] =>
      destruct (remove_flows_calls ds mac s0) as [Hret Hcalls]
  end.
  cbn [calls] in Hcalls.
  assert (Hsince : calls_since s
            (remove_flows (Devices finder) (THA arp)
               {| canceller := canceller s; tasks := tasks s;
                  world := (db_UpdateHostLocation (THA arp) (TPA arp) swDPID
                              (uint16 (port_Number ingress)) (world s)).2;
                  calls := calls s ++
                    [CallUpdateHostLocation (THA arp) (TPA arp) swDPID
                       (uint16 (port_Number ingress))] |}).2
          = CallUpdateHostLocation (THA arp) (TPA arp) swDPID
              (uint16 (port_Number ingress))
            :: ((λ d, CallRemoveFlowByMAC d (THA arp)) <$> Devices finder)).
  { apply calls_since_app. rewrite Hcalls, <- app_assoc. reflexivity. }
  split; [exact Hret | split; [exact Hsince | ]].
  intros d. rewrite Hsince. rewrite filter_cons_False by discriminate.
  apply count_remove_calls.
Qed.




Example ParseUint_decimal : ParseUint "1024" = Some 1024.
Proof. reflexivity. Qed.
Example ParseUint_max : ParseUint "18446744073709551615" = Some (2 ^ 64 - 1).
Proof. reflexivity. Qed.
Example ParseUint_overflow : ParseUint "18446744073709551616" = None.
Proof. reflexivity. Qed.
Example ParseUint_hex : ParseUint "0x10" = None.
Proof. reflexivity. Qed.
Example ParseUint_empty : ParseUint "" = None.
Proof. reflexivity. Qed.


(** C5, amended.  A frame whose type is not 0x0806, or whose payload
    decodes as ARP with an operation other than 2, is handed unmodified to
    the next link and the handler returns what the link returns.  A frame of
    type 0x0806 whose payload fails to decode is not forwarded: the decode
    error is returned.  A frame that is not forwarded is an ARP reply or such
    an undecodable ARP frame. *)
Theorem frame_forwarded_unless_ARP (finder : Finder) (ingress : Port)
    (eth : Ethernet) (s : state) :
  (eth_Type eth ≠ 0x0806 ∨
   (∃ arp, UnmarshalBinary new (Payload eth) = Ok arp ∧ Operation arp ≠ 2) →
   forwards_frame finder ingress eth s ∧
   OnPacketIn finder ingress eth s = forward (FwdPacketIn finder ingress eth) s) ∧
  (eth_Type eth = 0x0806 →
   ∀ e, UnmarshalBinary (T := ARP) new (Payload eth) = Err e →
        OnPacketIn finder ingress eth s = (Err e, s)) ∧
  (¬ forwards_frame finder ingress eth s →
   is_ARP_reply eth ∨
   (eth_Type eth = 0x0806 ∧
    is_Ok (UnmarshalBinary (T := ARP) new (Payload eth)) = false)).
Proof.
  assert (Hfwd : OnPacketIn finder ingress eth s
                   = forward (FwdPacketIn finder ingress eth) s →
                 forwards_frame finder ingress eth s).
  { intros Heq. unfold forwards_frame. rewrite Heq.
    apply calls_since_app. apply forward_calls. }
  assert (Hother : eth_Type eth ≠ 0x0806 →
            OnPacketIn finder ingress eth s
              = forward (FwdPacketIn finder ingress eth) s).
  { intros Hne. unfold OnPacketIn.
    destruct (Z.eqb_spec (eth_Type eth) 0x0806); [contradiction | reflexivity]. }
  assert (Hop : ∀ arp, eth_Type eth = 0x0806 →
            UnmarshalBinary new (Payload eth) = Ok arp → Operation arp ≠ 2 →
            OnPacketIn finder ingress eth s
              = forward (FwdPacketIn finder ingress eth) s).
  { intros arp Htype Hdec Hne. unfold OnPacketIn.
    rewrite Htype. cbn [Z.eqb Pos.eqb negb].
    unfold bindM at 1, decode_ARP. rewrite Hdec.
    destruct (Z.eqb_spec (Operation arp) 2); [contradiction | reflexivity]. }
  split; [ | split].
  - intros Hnot.
    assert (Heq : OnPacketIn finder ingress eth s
                    = forward (FwdPacketIn finder ingress eth) s).
    { destruct (decide (eth_Type eth = 0x0806)) as [Htype | Hne];
        [ | exact (Hother Hne)].
      destruct Hnot as [Hne | (arp & Hdec & Hne)]; [contradiction | ].
      exact (Hop arp Htype Hdec Hne). }
    split; [exact (Hfwd Heq) | exact Heq].
  - intros Htype e Hdec. unfold OnPacketIn.
    rewrite Htype. cbn [Z.eqb Pos.eqb negb].
    unfold bindM, decode_ARP. rewrite Hdec. reflexivity.
  - intros Hnot.
    destruct (decide (eth_Type eth = 0x0806)) as [Htype | Hne];
      [ | exfalso; exact (Hnot (Hfwd (Hother Hne)))].
    destruct (UnmarshalBinary (T := ARP) new (Payload eth)) as [arp| |] eqn:Hdec.
    + destruct (decide (Operation arp = 2)) as [Hrep | Hne].
      * left. split; [exact Htype | ]. exists arp. split; [exact Hdec | exact Hrep].
      * exfalso. exact (Hnot (Hfwd (Hop arp Htype eq_refl Hne))).
    + right. split; [exact Htype | reflexivity].
    + right. split; [exact Htype | reflexivity].
Qed.

End PacketIn.

(** ** The discovery engine: the canceller table *)

Section CancellerTable.

Import openflow discovery.

Context {W : Type} `{!Collaborators W} `{!BinaryUnmarshaler ARP}.

Local Abbreviation state := (discovery.state W).

Lemma keeps_ret {A} (a : A) : keeps_table (W := W) (ret a).
Proof. intros s. split; reflexivity. Qed.

Lemma keeps_fail {A} (e : error) : keeps_table (W := W) (fail (A := A) e).
Proof. intros s. split; reflexivity. Qed.

Lemma keeps_collab {A} (c : call) (f : W → A * W) : keeps_table (W := W) (collab c f).
Proof.
  intros s. unfold collab. destruct (f (world s)). split; reflexivity.
Qed.

Lemma keeps_bind {A B} (m : M W A) (k : A → M W B) :
  keeps_table (W := W) m → (∀ a, keeps_table (W := W) (k a)) → keeps_table (W := W) (bindM m k).
Proof.
  intros Hm Hk s. unfold bindM. specialize (Hm s).
  destruct (m s) as [[a|e|] s']; cbn [snd] in *; try exact Hm.
  destruct (Hk a s') as [Hc Ht]. destruct Hm as [Hc' Ht'].
  split; congruence.
Qed.

Lemma keeps_ignore_error (m : M W unit) : keeps_table (W := W) m → keeps_table (W := W) (ignore_error m).
Proof.
  intros Hm s. unfold ignore_error. specialize (Hm s).
  destruct (m s) as [[a|e|] s']; exact Hm.
Qed.

Lemma keeps_return_error (e : option error) : keeps_table (W := W) (return_error e).
Proof. destruct e; [apply keeps_fail | apply keeps_ret]. Qed.

Lemma keeps_forward (ev : forwarded) : keeps_table (W := W) (forward ev).
Proof.
  apply keeps_bind; [apply keeps_collab | intros e; apply keeps_return_error].
Qed.

Lemma keeps_probe_hosts (device : Device) (hosts : list (list byte)) :
  keeps_table (W := W) (probe_hosts device hosts).
Proof.
  induction hosts as [|ip rest IH]; cbn [probe_hosts]; [apply keeps_ret | ].
  apply keeps_bind; [apply keeps_collab | ].
  intros [err|]; [apply keeps_fail | exact IH].
Qed.

Lemma keeps_sendARPProbes (device : Device) : keeps_table (W := W) (sendARPProbes device).
Proof.
  intros s. unfold sendARPProbes.
  destruct (dev_IsClosed device (world s)); [apply keeps_fail | ].
  apply keeps_bind; [apply keeps_collab | ].
  intros [hosts [err|]]; [apply keeps_fail | apply keeps_probe_hosts].
Qed.

Lemma keeps_remove_flows (devices : list Device) (mac : list byte) :
  keeps_table (W := W) (remove_flows devices mac).
Proof.
  induction devices as [|d ds IH]; cbn [remove_flows]; [apply keeps_ret | ].
  apply keeps_bind; [apply keeps_collab | intros _; exact IH].
Qed.

Lemma keeps_OnPacketIn (finder : Finder) (ingress : Port) (eth : Ethernet) :
  keeps_table (W := W) (OnPacketIn finder ingress eth).
Proof.
  unfold OnPacketIn.
  destruct (negb _); [apply keeps_forward | ].
  apply keeps_bind; [intros s; split; reflexivity | ].
  intros arp. destruct (negb _); [apply keeps_forward | ].
  destruct (negb _); [apply keeps_ret | ].
  destruct (ParseUint _); [ | apply keeps_fail].
  apply keeps_bind; [apply keeps_collab | ].
  intros [updated [err|]]; cbn [fst snd]; [apply keeps_fail | ].
  destruct updated; [apply keeps_remove_flows | apply keeps_ret].
Qed.

Lemma keeps_OnPortUp (finder : Finder) (port : Port) :
  keeps_table (W := W) (OnPortUp finder port).
Proof.
  apply keeps_bind; [apply keeps_ignore_error, keeps_sendARPProbes | ].
  intros _. apply keeps_forward.
Qed.

Lemma keeps_OnPortDown (finder : Finder) (port : Port) :
  keeps_table (W := W) (OnPortDown finder port).
Proof.
  unfold OnPortDown. destruct (ParseUint _); [ | apply keeps_fail].
  apply keeps_bind; [apply keeps_collab | ].
  intros [err|]; [apply keeps_fail | apply keeps_forward].
Qed.

Lemma table_consistent_ext (s s' : state) :
  canceller s' = canceller s → tasks s' = tasks s →
  table_consistent s → table_consistent s'.
Proof.
  unfold table_consistent. intros -> ->. trivial.
Qed.

Lemma New_consistent (w : W) : table_consistent (New w).
Proof.
  split.
  - intros id c H. cbn in H. rewrite lookup_empty in H. discriminate.
  - intros c t H. discriminate.
Qed.

(** [removeARPSender]: the entry of the device goes and the context of the
    task it named is cancelled; everything else stays. *)
Lemma removeARPSender_state (id : string) (s : state) :
  let s' := (removeARPSender id s).2 in
  (removeARPSender id s).1 = Ok tt ∧
  canceller s' = delete id (canceller s) ∧
  tasks s' = match canceller s !! id with
             | Some c => alter cancel c (tasks s)
             | None => tasks s
             end ∧
  world s' = world s ∧ calls s' = calls s.
Proof.
  unfold removeARPSender. destruct (canceller s !! id) as [c|] eqn:E; cbn.
  - repeat split.
  - repeat split. symmetry. apply delete_id. exact E.
Qed.

Lemma removeARPSender_consistent (id : string) (s : state) :
  table_consistent s → table_consistent (removeARPSender id s).2.
Proof.
  intros [Hentry Htask].
  destruct (removeARPSender_state id s) as (_ & Hc & Ht & _).
  cbn zeta in Hc, Ht. split.
  - intros id' c' Hl. rewrite Hc in Hl.
    apply lookup_delete_Some in Hl as [Hne Hl].
    destruct (Hentry id' c' Hl) as (t & Hlt & Hdev & Hdone).
    exists t. rewrite Ht. split; [ | split; assumption].
    destruct (canceller s !! id) as [c|] eqn:E; [ | exact Hlt].
    rewrite list_lookup_alter_ne; [exact Hlt | ].
    intros ->. destruct (Hentry id c' E) as (t' & Hlt' & Hdev' & _).
    congruence.
  - intros c' t Hl Hdone. rewrite Ht in Hl. rewrite Hc.
    destruct (canceller s !! id) as [c|] eqn:E.
    + destruct (decide (c = c')) as [-> | Hne].
      * rewrite list_lookup_alter_eq in Hl.
        destruct (tasks s !! c') as [t0|]; [ | discriminate].
        injection Hl as <-. discriminate.
      * rewrite list_lookup_alter_ne in Hl by exact Hne.
        pose proof (Htask c' t Hl Hdone) as Hcan.
        apply lookup_delete_Some. split; [ | exact Hcan].
        intros Heq. rewrite <- Heq in Hcan. congruence.
    + pose proof (Htask c' t Hl Hdone) as Hcan.
      apply lookup_delete_Some. split; [ | exact Hcan].
      intros Heq. rewrite <- Heq in Hcan. congruence.
Qed.

(** [addARPSender]: one new goroutine, named by the entry of its device. *)
Lemma addARPSender_consistent (device : Device) (s : state) :
  table_consistent s → canceller s !! dev_ID device = None →
  table_consistent (addARPSender device s).2.
Proof.
  intros [Hentry Htask] Hfree. cbn [addARPSender snd]. split; cbn [canceller tasks].
  - intros id c Hl. apply lookup_insert_Some in Hl as [[<- <-] | [Hne Hl]].
    + exists {| task_device := device; ctx_done := false; returned := false |}.
      split; [ | split; reflexivity].
      rewrite lookup_app_r by reflexivity. rewrite Nat.sub_diag. reflexivity.
    + destruct (Hentry id c Hl) as (t & Hlt & Hdev & Hdone).
      exists t. split; [ | split; assumption].
      apply lookup_app_l_Some. exact Hlt.
  - intros c t Hl Hdone. apply lookup_app_Some in Hl as [Hl | [Hge Hl]].
    + pose proof (Htask c t Hl Hdone) as Hcan.
      rewrite lookup_insert_ne; [exact Hcan | ].
      intros Heq. rewrite <- Heq in Hcan. congruence.
    + destruct (c - length (tasks s))%nat as [|k] eqn:Ek; [ | discriminate].
      injection Hl as <-. cbn [task_device].
      replace c with (length (tasks s)) by lia. apply lookup_insert_eq.
Qed.

Lemma task_turn_consistent (c : nat) (s : state) :
  table_consistent s → table_consistent (task_turn c s).2.
Proof.
  intros Hcons. unfold task_turn.
  destruct (tasks s !! c) as [t|] eqn:Et; [ | exact Hcons].
  destruct (returned t); [exact Hcons | ].
  destruct (ctx_done t) eqn:Edone.
  - destruct Hcons as [Hentry Htask]. split; cbn [snd canceller tasks].
    + intros id c' Hl. destruct (Hentry id c' Hl) as (t' & Hlt & Hdev & Hdone).
      exists t'. split; [ | split; assumption].
      rewrite list_lookup_alter_ne; [exact Hlt | ]. intros ->. congruence.
    + intros c' t' Hl Hdone. destruct (decide (c = c')) as [-> | Hne].
      * rewrite list_lookup_alter_eq, Et in Hl. injection Hl as <-.
        cbn in Hdone. congruence.
      * rewrite list_lookup_alter_ne in Hl by exact Hne.
        exact (Htask c' t' Hl Hdone).
  - destruct (keeps_ignore_error _ (keeps_sendARPProbes (task_device t)) s)
      as [Hc Ht].
    exact (table_consistent_ext s _ Hc Ht Hcons).
Qed.

Lemma OnDeviceUp_unfold (finder : Finder) (device : Device) (s : state) :
  OnDeviceUp finder device s =
    forward (FwdDeviceUp finder device)
      (addARPSender device (removeARPSender (dev_ID device) s).2).2.
Proof.
  unfold OnDeviceUp, bindM, removeARPSender.
  destruct (canceller s !! dev_ID device); reflexivity.
Qed.

(** [OnDeviceUp]: whatever the next link answers, the table ends with one
    entry for the device, naming the goroutine just started, and the task a
    prior entry named has its context cancelled. *)
Lemma OnDeviceUp_state (finder : Finder) (device : Device) (s : state) :
  let s' := (OnDeviceUp finder device s).2 in
  canceller s' = <[dev_ID device := length (tasks s)]> (canceller s) ∧
  tasks s' = match canceller s !! dev_ID device with
             | Some c => alter cancel c (tasks s)
             | None => tasks s
             end ++ [{| task_device := device; ctx_done := false;
                        returned := false |}].
Proof.
  cbn zeta. rewrite OnDeviceUp_unfold.
  destruct (removeARPSender_state (dev_ID device) s) as (_ & Hc & Ht & _).
  cbn zeta in Hc, Ht.
  match goal with
  | |- context [forward ?ev ?s0] => destruct (keeps_forward ev s0) as [-> ->]
  end.
  cbn [addARPSender snd canceller tasks]. rewrite Hc, Ht.
  split; [ | reflexivity].
  rewrite insert_delete_eq. f_equal.
  destruct (canceller s !! dev_ID device); [apply length_alter | reflexivity].
Qed.

Lemma OnDeviceUp_consistent (finder : Finder) (device : Device) (s : state) :
  table_consistent s → table_consistent (OnDeviceUp finder device s).2.
Proof.
  intros Hcons. rewrite OnDeviceUp_unfold.
  pose proof (removeARPSender_consistent (dev_ID device) s Hcons) as Hcons1.
  destruct (removeARPSender_state (dev_ID device) s) as (_ & Hc & _).
  cbn zeta in Hc.
  assert (Hfree : canceller (removeARPSender (dev_ID device) s).2
                    !! dev_ID device = None)
    by (rewrite Hc; apply lookup_delete_eq).
  pose proof (addARPSender_consistent device _ Hcons1 Hfree) as Hcons2.
  match goal with
  | |- context [forward ?ev ?s0] => destruct (keeps_forward ev s0) as [Hc' Ht']
  end.
  exact (table_consistent_ext _ _ Hc' Ht' Hcons2).
Qed.

Lemma OnDeviceDown_consistent (finder : Finder) (device : Device) (s : state) :
  table_consistent s → table_consistent (OnDeviceDown finder device s).2.
Proof.
  intros Hcons. unfold OnDeviceDown.
  pose proof (removeARPSender_consistent (dev_ID device) s Hcons) as Hcons1.
  destruct (removeARPSender_state (dev_ID device) s) as (Hr & _).
  unfold bindM at 1.
  destruct (removeARPSender (dev_ID device) s) as [r s1]. cbn [fst snd] in *.
  subst r. cbn beta iota.
  assert (Hrest : keeps_table (W := W)
            (match ParseUint (dev_ID device) with
             | Some swDPID =>
                 bindM (collab (CallResetHostLocationsByDevice swDPID)
                          (db_ResetHostLocationsByDevice swDPID))
                   (λ e, match e with
                         | Some err => fail err
                         | None => forward (FwdDeviceDown finder device)
                         end)
             | None => fail (errorString ("invalid device ID: " +:+ dev_ID device))
             end)).
  { destruct (ParseUint _); [ | apply keeps_fail].
    apply keeps_bind; [apply keeps_collab | ].
    intros [err|]; [apply keeps_fail | apply keeps_forward]. }
  destruct (Hrest s1) as [Hc' Ht'].
  exact (table_consistent_ext s1 _ Hc' Ht' Hcons1).
Qed.

Lemma handle_consistent (ev : event) (s : state) :
  table_consistent s → table_consistent (handle ev s).2.
Proof.
  intros Hcons. destruct ev as [f d | f d | f p | f p | f p eth | c]; cbn [handle].
  - apply OnDeviceUp_consistent, Hcons.
  - apply OnDeviceDown_consistent, Hcons.
  - destruct (keeps_OnPortUp f p s) as [Hc Ht].
    exact (table_consistent_ext s _ Hc Ht Hcons).
  - destruct (keeps_OnPortDown f p s) as [Hc Ht].
    exact (table_consistent_ext s _ Hc Ht Hcons).
  - destruct (keeps_OnPacketIn f p eth s) as [Hc Ht].
    exact (table_consistent_ext s _ Hc Ht Hcons).
  - apply task_turn_consistent, Hcons.
Qed.

(** The table and the goroutines agree after every sequence of events. *)
Lemma run_consistent (evs : list event) (s : state) :
  table_consistent s → table_consistent (run evs s).
Proof.
  revert s. induction evs as [|ev evs IH]; intros s Hcons; [exact Hcons | ].
  cbn [run foldl]. apply IH, handle_consistent, Hcons.
Qed.

Lemma elem_of_live (s : state) (id : string) (c : nat) :
  c ∈ live s id ↔
  ∃ t, tasks s !! c = Some t ∧ dev_ID (task_device t) = id ∧ ctx_done t = false.
Proof.
  unfold live. rewrite list_elem_of_filter, elem_of_seq. split.
  - intros [Hp _]. destruct (tasks s !! c) as [t|]; [ | discriminate].
    apply andb_true_iff in Hp as [Hdev Hdone].
    exists t. split; [reflexivity | ]. split.
    + apply bool_decide_eq_true in Hdev. exact Hdev.
    + destruct (ctx_done t); [discriminate | reflexivity].
  - intros (t & Hl & Hdev & Hdone). split.
    + rewrite Hl, Hdone, bool_decide_eq_true_2 by exact Hdev. reflexivity.
    + apply lookup_lt_Some in Hl. lia.
Qed.

Lemma NoDup_live (s : state) (id : string) : NoDup (live s id).
Proof.
  unfold live. apply NoDup_filter, NoDup_seq.
Qed.

(** With a consistent table, the live goroutines of a device are the one
    its entry names, or none without an entry. *)
Lemma live_of_consistent (s : state) (id : string) :
  table_consistent s →
  live s id = match canceller s !! id with
              | Some c => [c]
              | None => []
              end.
Proof.
  intros [Hentry Htask].
  assert (Hin : ∀ c, c ∈ live s id ↔ canceller s !! id = Some c).
  { intros c. rewrite elem_of_live. split.
    - intros (t & Hl & <- & Hdone). exact (Htask c t Hl Hdone).
    - intros Hl. exact (Hentry id c Hl). }
  pose proof (NoDup_live s id) as Hnd.
  destruct (canceller s !! id) as [c|].
  - destruct (live s id) as [|c1 l].
    + exfalso. apply (not_elem_of_nil c). apply Hin. reflexivity.
    + assert (c1 = c) as ->.
      { assert (H1 : c1 ∈ c1 :: l) by left. apply Hin in H1. congruence. }
      destruct l as [|c2 l]; [reflexivity | ].
      assert (H2 : c2 ∈ c :: c2 :: l) by (right; left).
      apply Hin in H2. injection H2 as ->.
      apply NoDup_cons in Hnd as [Hnot _]. exfalso. apply Hnot. left.
  - destruct (live s id) as [|c1 l]; [reflexivity | ].
    assert (H1 : c1 ∈ c1 :: l) by left. apply Hin in H1. discriminate.
Qed.


End CancellerTable.

(** ** The theorems at concrete inputs *)

Section Concrete.

Import openflow of10 discovery Examples.

(** The decode scenario of the specification: the 32-byte features reply
    decodes without error, to no port, datapath id 42, and only the
    flow-statistics capability. *)
Example features_no_port_decodes :
  ∃ v : FeaturesReply RawPort,
    FeaturesReply_UnmarshalBinary new features_no_port = Ok v ∧
    Ports v = [] ∧ DPID v = 42 ∧ NumBuffers v = 256 ∧ NumTables v = 2 ∧
    Capabilities v = {| cap_FLOW_STATS := true; cap_TABLE_STATS := false;
                        cap_PORT_STATS := false; cap_STP := false;
                        cap_RESERVED := false; cap_IP_REASM := false;
                        cap_QUEUE_STATS := false; cap_ARP_MATCH_IP := false |}.
Proof. eexists. repeat split. Qed.

(** A features reply of length 32 + 48 * 2 decodes to its two port
    records, in wire order. *)
Lemma features_reply_port_count_witness :
  declared_length features_two_ports = Some (32 + 48 * 2) ∧
  ∃ v : FeaturesReply RawPort,
    FeaturesReply_UnmarshalBinary new features_two_ports = Ok v ∧
    Ports v = [Some (replicate 48 (mkbyte 7)); Some (replicate 48 (mkbyte 9))].
Proof.
  assert (Hl : declared_length features_two_ports = Some (32 + 48 * 2))
    by reflexivity.
  split; [exact Hl | ].
  destruct (features_reply_port_count (Port := RawPort) features_two_ports
              (32 + 48 * 2) Hl) as [_ Hports].
  destruct Hports as (_ & Hdecodes & _); [vm_compute; split; discriminate | ].
  apply (Hdecodes [replicate 48 (mkbyte 7); replicate 48 (mkbyte 9)]).
  reflexivity.
Defined.

(** An echo request, and a statistics reply of sub-type 1, are
    unsupported. *)
Lemma unsupported_message_witness :
  ParseMessage_raw echo_request = Err ErrUnsupportedMessage ∧
  ParseMessage_raw stats_flow = Err ErrUnsupportedMessage.
Proof.
  split.
  - apply (unsupported_message echo_request
             {| header := {| Version := 1; Type_ := 2; Length := 8; XID := 1 |} |}).
    + reflexivity.
    + left. reflexivity.
  - apply (unsupported_message stats_flow
             {| header := {| Version := 1; Type_ := 17; Length := 12; XID := 1 |} |}).
    + reflexivity.
    + right. split; [reflexivity | ].
      exists 1. split; [reflexivity | discriminate].
Defined.

(** A reply from another sender leaves the fresh state untouched. *)
Lemma foreign_reply_dropped_witness :
  OnPacketIn finder3 port1_7 reply_to_other (New 0%nat) = (Ok tt, New 0%nat).
Proof.
  apply (foreign_reply_dropped finder3 port1_7 reply_to_other
           {| HWType := 1; ProtoType := 0x0800; HWLength := 6; ProtoLength := 4;
              Operation := 2; SHA := other_mac; SPA := gw_ip;
              THA := host_mac; TPA := host_ip |} (New 0%nat)).
  - reflexivity.
  - reflexivity.
  - reflexivity.
  - discriminate.
Defined.

(** With three devices, the second of which fails its removal, all three
    removals are attempted after the update. *)
Lemma relocation_removes_flows_everywhere_witness :
  calls_since (New 0%nat) (OnPacketIn finder3 port1_7 reply_to_probe (New 0%nat)).2 =
    [CallUpdateHostLocation host_mac host_ip 1 7;
     CallRemoveFlowByMAC dev1 host_mac;
     CallRemoveFlowByMAC dev2 host_mac;
     CallRemoveFlowByMAC dev3 host_mac] ∧
  (dev_RemoveFlowByMAC dev2 host_mac 2%nat).1 = Some (errorString "removal failed").
Proof.
  split; [ | reflexivity].
  apply (relocation_removes_flows_everywhere finder3 port1_7 reply_to_probe
           {| HWType := 1; ProtoType := 0x0800; HWLength := 6; ProtoLength := 4;
              Operation := 2; SHA := myMAC; SPA := gw_ip;
              THA := host_mac; TPA := host_ip |} 1 (New 0%nat));
    reflexivity.
Defined.


(** C5, as worded, fails: the first 8 bytes of an ARP request, in a frame
    of type 0x0806, are not an ARP reply (the operation they carry is 1 and
    the payload does not decode), and [OnPacketIn] returns the decode error
    without handing the frame to the next link. *)
Lemma truncated_ARP_not_forwarded :
  eth_Type arp_truncated = 0x0806 ∧
  Payload arp_truncated !! 7%nat = Some (mkbyte 1) ∧
  OnPacketIn finder3 port1_7 arp_truncated (New 0%nat) =
    (Err (errorString "invalid ARP packet length"), New 0%nat) ∧
  ¬ is_ARP_reply arp_truncated ∧
  ¬ forwards_frame finder3 port1_7 arp_truncated (New 0%nat) ∧
  ¬ consumes_only_ARP_replies (W := nat).
Proof.
  assert (Hnot : ¬ is_ARP_reply arp_truncated).
  { intros (_ & arp & Hdec & _). discriminate. }
  assert (Hfwd : ¬ forwards_frame finder3 port1_7 arp_truncated (New 0%nat)).
  { unfold forwards_frame. vm_compute. discriminate. }
  repeat split; try assumption.
  intros Hclaim. apply Hfwd. apply Hclaim. exact Hnot.
Qed.

(** An IPv4 frame and an ARP request are forwarded; the truncated ARP
    frame is answered with the decode error. *)
Lemma frame_forwarded_unless_ARP_witness :
  forwards_frame finder3 port1_7 ipv4_frame (New 0%nat) ∧
  forwards_frame finder3 port1_7 arp_request (New 0%nat) ∧
  OnPacketIn finder3 port1_7 arp_truncated (New 0%nat) =
    (Err (errorString "invalid ARP packet length"), New 0%nat).
Proof.
  split; [ | split].
  - apply (frame_forwarded_unless_ARP finder3 port1_7 ipv4_frame (New 0%nat)).
    left. discriminate.
  - apply (frame_forwarded_unless_ARP finder3 port1_7 arp_request (New 0%nat)).
    right. eexists. split; [reflexivity | discriminate].
  - apply (frame_forwarded_unless_ARP finder3 port1_7 arp_truncated (New 0%nat));
      reflexivity.
Defined.

(** Two device-up events for device "1", with an unrelated device and a
    goroutine turn around them: device "1" ends with the goroutine of the
    second event alone, and the one of the first event is cancelled. *)
Example two_device_ups :
  let s := run [EvDeviceUp finder3 dev2; EvDeviceUp finder3 dev1;
                EvTaskTurn 1; EvDeviceUp finder3 dev1] (New 0%nat) in
  live s "1" = [2%nat] ∧ live s "2" = [0%nat] ∧
  canceller s = {[ "1" := 2%nat; "2" := 0%nat ]} ∧
  ctx_done <$> tasks s = [false; true; false].
Proof.
  cbn zeta. repeat split; reflexivity.
Qed.

End Concrete.

(** * Further properties of the code *)

(** ** The action model: output ports and repeated sets *)

Section ActionMore.

Import openflow.

Lemma SetOutputs_fields (r : BaseAction) (ports : list Z) :
  output (SetOutputs r ports) = list_to_set ports ∪ output r ∧
  srcMAC (SetOutputs r ports) = srcMAC r ∧
  dstMAC (SetOutputs r ports) = dstMAC r.
Proof.
  unfold SetOutputs. revert r.
  induction ports as [|p ports IH]; intros r; cbn [foldl].
  - split; [ | split; reflexivity].
    cbn [list_to_set]. symmetry. apply (left_id_L ∅ (∪)).
  - destruct (IH (SetOutput r p).1) as (Ho & Hs & Hd).
    rewrite Ho, Hs, Hd. cbn [SetOutput fst output srcMAC dstMAC list_to_set].
    split; [ | split; reflexivity].
    rewrite (assoc_L (∪)). f_equal. apply (comm_L (∪)).
Qed.

(** [SetOutput] never fails, and after any run of [SetOutput] calls
    [Output] lists, without repetition, exactly the ports set in the run and
    those the action had before; the two addresses are left alone. *)
Theorem Output_lists_ports_once (r : BaseAction) (ports : list Z) :
  (∀ port, (SetOutput r port).2 = None) ∧
  (∀ port, port ∈ Output (SetOutputs r ports) ↔ port ∈ ports ∨ port ∈ Output r) ∧
  NoDup (Output (SetOutputs r ports)) ∧
  SrcMAC (SetOutputs r ports) = SrcMAC r ∧
  DstMAC (SetOutputs r ports) = DstMAC r.
Proof.
  destruct (SetOutputs_fields r ports) as (Ho & Hs & Hd).
  split; [reflexivity | ]. split; [ | split; [ | split]].
  - intros port. unfold Output. rewrite !elem_of_elements, Ho.
    rewrite elem_of_union, elem_of_list_to_set. reflexivity.
  - unfold Output. apply NoDup_elements.
  - unfold SrcMAC. rewrite Hs. reflexivity.
  - unfold DstMAC. rewrite Hd. reflexivity.
Qed.

Lemma SetSrcMAC_fields (r : BaseAction) (mac : HardwareAddr) :
  srcMAC (SetSrcMAC r mac).1 = (if invalid_mac mac then srcMAC r else mac) ∧
  dstMAC (SetSrcMAC r mac).1 = dstMAC r ∧
  output (SetSrcMAC r mac).1 = output r.
Proof.
  unfold SetSrcMAC. destruct (invalid_mac mac); repeat split.
Qed.

Lemma SetDstMAC_fields (r : BaseAction) (mac : HardwareAddr) :
  dstMAC (SetDstMAC r mac).1 = (if invalid_mac mac then dstMAC r else mac) ∧
  srcMAC (SetDstMAC r mac).1 = srcMAC r ∧
  output (SetDstMAC r mac).1 = output r.
Proof.
  unfold SetDstMAC. destruct (invalid_mac mac); repeat split.
Qed.

Lemma accepted_is_Some (mac : HardwareAddr) :
  invalid_mac mac = false → ∃ bs, mac = Some bs.
Proof.
  destruct mac as [bs|]; [intros _; exists bs; reflexivity | discriminate].
Qed.

Lemma last_accepted_cons (mac : HardwareAddr) (macs : list HardwareAddr) :
  last_accepted (mac :: macs) =
    match last_accepted macs with
    | Some bs => Some bs
    | None => if invalid_mac mac then None else mac
    end.
Proof.
  unfold last_accepted. cbn [omap list_omap].
  change (list_omap _ _ ?f macs) with (omap f macs).
  destruct (invalid_mac mac) eqn:E.
  - destruct (last (omap _ macs)); reflexivity.
  - destruct (accepted_is_Some mac E) as [bs ->].
    destruct (omap _ macs) as [|m ms]; [reflexivity | ].
    rewrite last_cons. destruct (last (m :: ms)); reflexivity.
Qed.

Lemma SetSrcMACs_fields (r : BaseAction) (macs : list HardwareAddr) :
  srcMAC (SetSrcMACs r macs) =
    match last_accepted macs with Some bs => Some bs | None => srcMAC r end ∧
  dstMAC (SetSrcMACs r macs) = dstMAC r ∧
  output (SetSrcMACs r macs) = output r.
Proof.
  unfold SetSrcMACs. revert r.
  induction macs as [|mac macs IH]; intros r; cbn [foldl].
  - split; [ | split; reflexivity]. cbn. destruct (srcMAC r); reflexivity.
  - destruct (IH (SetSrcMAC r mac).1) as (Hs & Hd & Ho).
    destruct (SetSrcMAC_fields r mac) as (Hs1 & Hd1 & Ho1).
    rewrite Hs, Hd, Ho, Hs1, Hd1, Ho1, last_accepted_cons.
    split; [ | split; reflexivity].
    destruct (last_accepted macs); [reflexivity | ].
    destruct (invalid_mac mac) eqn:E; [reflexivity | ].
    destruct mac; [reflexivity | discriminate E].
Qed.

Lemma SetDstMACs_fields (r : BaseAction) (macs : list HardwareAddr) :
  dstMAC (SetDstMACs r macs) =
    match last_accepted macs with Some bs => Some bs | None => dstMAC r end ∧
  srcMAC (SetDstMACs r macs) = srcMAC r ∧
  output (SetDstMACs r macs) = output r.
Proof.
  unfold SetDstMACs. revert r.
  induction macs as [|mac macs IH]; intros r; cbn [foldl].
  - split; [ | split; reflexivity]. cbn. destruct (dstMAC r); reflexivity.
  - destruct (IH (SetDstMAC r mac).1) as (Hd & Hs & Ho).
    destruct (SetDstMAC_fields r mac) as (Hd1 & Hs1 & Ho1).
    rewrite Hs, Hd, Ho, Hs1, Hd1, Ho1, last_accepted_cons.
    split; [ | split; reflexivity].
    destruct (last_accepted macs); [reflexivity | ].
    destruct (invalid_mac mac) eqn:E; [reflexivity | ].
    destruct mac; [reflexivity | discriminate E].
Qed.

(** After any run of [SetSrcMAC] calls, rejected ones among them, the
    source address is the last accepted one of the run, or what it was when
    none was accepted; the destination address and the output ports are
    untouched.  The same holds of [SetDstMAC] with the roles exchanged. *)
Theorem last_accepted_address_wins (r : BaseAction) (macs : list HardwareAddr) :
  SrcMAC (SetSrcMACs r macs) =
    match last_accepted macs with Some bs => (true, bs) | None => SrcMAC r end ∧
  DstMAC (SetSrcMACs r macs) = DstMAC r ∧
  Output (SetSrcMACs r macs) = Output r ∧
  DstMAC (SetDstMACs r macs) =
    match last_accepted macs with Some bs => (true, bs) | None => DstMAC r end ∧
  SrcMAC (SetDstMACs r macs) = SrcMAC r ∧
  Output (SetDstMACs r macs) = Output r.
Proof.
  destruct (SetSrcMACs_fields r macs) as (Hs & Hd & Ho).
  destruct (SetDstMACs_fields r macs) as (Hd' & Hs' & Ho').
  unfold SrcMAC, DstMAC, Output.
  rewrite Hs, Hd, Ho, Hd', Hs', Ho'.
  destruct (last_accepted macs); repeat split.
Qed.

End ActionMore.

(** ** The codec: flags, fixed fields and port errors *)

Section CodecMore.

Import openflow of10.

Context {Port GetConfigReply DescriptionReply PortStatus FlowRemoved : Type}.
Context `{!BinaryUnmarshaler Port, !BinaryUnmarshaler GetConfigReply,
          !BinaryUnmarshaler DescriptionReply, !BinaryUnmarshaler PortStatus,
          !BinaryUnmarshaler FlowRemoved}.

Local Abbreviation parse :=
  (@ParseMessage Port GetConfigReply DescriptionReply PortStatus FlowRemoved _ _ _ _ _).
Local Abbreviation incoming :=
  (Incoming Port GetConfigReply DescriptionReply PortStatus FlowRemoved).

(** Testing a mask against one shifted bit reads the bit at that position. *)
Lemma has_bits_testbit (x n : Z) :
  0 <= n → has_bits x (Z.shiftl 1 n) = Z.testbit x n.
Proof.
  intros Hn. unfold has_bits.
  assert (Hbit : ∀ k, 0 <= k →
            Z.testbit (Z.land x (Z.shiftl 1 n)) k
              = Z.testbit x n && bool_decide (k = n)).
  { intros k Hk. rewrite Z.land_spec, Z.shiftl_spec by exact Hk.
    destruct (decide (k = n)) as [-> | Hne].
    - rewrite Z.sub_diag, bool_decide_eq_true_2 by reflexivity.
      reflexivity.
    - rewrite bool_decide_eq_false_2 by exact Hne. rewrite andb_false_r.
      destruct (Z.lt_ge_cases k n) as [Hlt | Hge].
      + rewrite (Z.testbit_neg_r 1 (k - n)) by lia. apply andb_false_r.
      + rewrite (Z.bits_above_log2 1 (k - n));
          [apply andb_false_r | lia | change (Z.log2 1) with 0; lia]. }
  destruct (Z.testbit x n) eqn:E.
  - destruct (Z.eqb_spec (Z.land x (Z.shiftl 1 n)) 0) as [H0 | H0]; [ | reflexivity].
    pose proof (Hbit n Hn) as Hb. rewrite H0, Z.bits_0 in Hb.
    rewrite bool_decide_eq_true_2 in Hb by reflexivity. discriminate.
  - destruct (Z.eqb_spec (Z.land x (Z.shiftl 1 n)) 0) as [H0 | H0]; [reflexivity | ].
    exfalso. apply H0. apply Z.bits_inj'. intros k Hk.
    rewrite (Hbit k Hk), Z.bits_0. reflexivity.
Qed.

(** The capability flags are read by position: each named boolean is the
    bit of the mask at the position the protocol assigns it (0 to 7), so only
    the low 8 bits of the mask matter. *)
Theorem capability_flags_by_position (capabilities : Z) :
  getCapability capabilities =
    {| cap_FLOW_STATS := Z.testbit capabilities 0;
       cap_TABLE_STATS := Z.testbit capabilities 1;
       cap_PORT_STATS := Z.testbit capabilities 2;
       cap_STP := Z.testbit capabilities 3;
       cap_RESERVED := Z.testbit capabilities 4;
       cap_IP_REASM := Z.testbit capabilities 5;
       cap_QUEUE_STATS := Z.testbit capabilities 6;
       cap_ARP_MATCH_IP := Z.testbit capabilities 7 |} ∧
  getCapability (capabilities mod 2 ^ 8) = getCapability capabilities.
Proof.
  assert (Hpos : ∀ c, getCapability c =
            {| cap_FLOW_STATS := Z.testbit c 0;
               cap_TABLE_STATS := Z.testbit c 1;
               cap_PORT_STATS := Z.testbit c 2;
               cap_STP := Z.testbit c 3;
               cap_RESERVED := Z.testbit c 4;
               cap_IP_REASM := Z.testbit c 5;
               cap_QUEUE_STATS := Z.testbit c 6;
               cap_ARP_MATCH_IP := Z.testbit c 7 |}).
  { intros c.
    unfold getCapability, OFPC_FLOW_STATS, OFPC_TABLE_STATS, OFPC_PORT_STATS,
      OFPC_STP, OFPC_RESERVED, OFPC_IP_REASM, OFPC_QUEUE_STATS, OFPC_ARP_MATCH_IP.
    rewrite !has_bits_testbit by lia. reflexivity. }
  split; [apply Hpos | ].
  rewrite (Hpos capabilities), (Hpos (capabilities mod 2 ^ 8)).
  rewrite !Z.mod_pow2_bits_low by lia. reflexivity.
Qed.

(** The supported-action flags are read by position too: each named
    boolean is the bit of the mask at the number of its action type (0 to
    11), and the higher bits of the mask are ignored. *)
Theorem action_flags_by_position (actions : Z) :
  getSupportedAction actions =
    {| act_OUTPUT := Z.testbit actions 0;
       act_SET_VLAN_VID := Z.testbit actions 1;
       act_SET_VLAN_PCP := Z.testbit actions 2;
       act_STRIP_VLAN := Z.testbit actions 3;
       act_SET_DL_SRC := Z.testbit actions 4;
       act_SET_DL_DST := Z.testbit actions 5;
       act_SET_NW_SRC := Z.testbit actions 6;
       act_SET_NW_DST := Z.testbit actions 7;
       act_SET_NW_TOS := Z.testbit actions 8;
       act_SET_TP_SRC := Z.testbit actions 9;
       act_SET_TP_DST := Z.testbit actions 10;
       act_ENQUEUE := Z.testbit actions 11 |} ∧
  getSupportedAction (actions mod 2 ^ 12) = getSupportedAction actions.
Proof.
  assert (Hpos : ∀ a, getSupportedAction a =
            {| act_OUTPUT := Z.testbit a 0;
               act_SET_VLAN_VID := Z.testbit a 1;
               act_SET_VLAN_PCP := Z.testbit a 2;
               act_STRIP_VLAN := Z.testbit a 3;
               act_SET_DL_SRC := Z.testbit a 4;
               act_SET_DL_DST := Z.testbit a 5;
               act_SET_NW_SRC := Z.testbit a 6;
               act_SET_NW_DST := Z.testbit a 7;
               act_SET_NW_TOS := Z.testbit a 8;
               act_SET_TP_SRC := Z.testbit a 9;
               act_SET_TP_DST := Z.testbit a 10;
               act_ENQUEUE := Z.testbit a 11 |}).
  { intros a.
    unfold getSupportedAction, OFPAT_OUTPUT, OFPAT_SET_VLAN_VID,
      OFPAT_SET_VLAN_PCP, OFPAT_STRIP_VLAN, OFPAT_SET_DL_SRC, OFPAT_SET_DL_DST,
      OFPAT_SET_NW_SRC, OFPAT_SET_NW_DST, OFPAT_SET_NW_TOS, OFPAT_SET_TP_SRC,
      OFPAT_SET_TP_DST, OFPAT_ENQUEUE.
    rewrite !has_bits_testbit by lia. reflexivity. }
  split; [apply Hpos | ].
  rewrite (Hpos actions), (Hpos (actions mod 2 ^ 12)).
  rewrite !Z.mod_pow2_bits_low by lia. reflexivity.
Qed.

Lemma be_value_snoc (bs : list byte) (b : byte) :
  be_value (bs ++ [b]) = be_value bs * 256 + byteZ b.
Proof.
  unfold be_value. rewrite foldl_snoc. reflexivity.
Qed.

Lemma be_value_range (bs : list byte) :
  0 <= be_value bs < 256 ^ len bs.
Proof.
  induction bs as [|b bs IH] using rev_ind.
  - unfold be_value, len. cbn [foldl length]. change (Z.of_nat 0) with 0.
    rewrite Z.pow_0_r. lia.
  - rewrite be_value_snoc. unfold len in *. rewrite length_app. cbn [length].
    replace (Z.of_nat (length bs + 1)) with (Z.of_nat (length bs) + 1) by lia.
    rewrite Z.pow_add_r by lia. pose proof (byteZ_range b). lia.
Qed.

Lemma Uint32_value (b0 b1 b2 b3 : byte) (rest : list byte) :
  BigEndian.Uint32 (b0 :: b1 :: b2 :: b3 :: rest) = Ok (be_value [b0; b1; b2; b3]).
Proof.
  cbn [BigEndian.Uint32]. f_equal.
  pose proof (byteZ_range b0). pose proof (byteZ_range b1).
  pose proof (byteZ_range b2). pose proof (byteZ_range b3).
  rewrite (lor_shiftl_range (byteZ b3) (byteZ b2) 8) by lia.
  rewrite (lor_shiftl_range _ (byteZ b1) 16) by lia.
  rewrite (lor_shiftl_range _ (byteZ b0) 24) by lia.
  cbn. lia.
Qed.

Lemma Uint64_value (b0 b1 b2 b3 b4 b5 b6 b7 : byte) (rest : list byte) :
  BigEndian.Uint64 (b0 :: b1 :: b2 :: b3 :: b4 :: b5 :: b6 :: b7 :: rest)
    = Ok (be_value [b0; b1; b2; b3; b4; b5; b6; b7]).
Proof.
  cbn [BigEndian.Uint64]. f_equal.
  pose proof (byteZ_range b0). pose proof (byteZ_range b1).
  pose proof (byteZ_range b2). pose proof (byteZ_range b3).
  pose proof (byteZ_range b4). pose proof (byteZ_range b5).
  pose proof (byteZ_range b6). pose proof (byteZ_range b7).
  rewrite (lor_shiftl_range (byteZ b7) (byteZ b6) 8) by lia.
  rewrite (lor_shiftl_range _ (byteZ b5) 16) by lia.
  rewrite (lor_shiftl_range _ (byteZ b4) 24) by lia.
  rewrite (lor_shiftl_range _ (byteZ b3) 32) by lia.
  rewrite (lor_shiftl_range _ (byteZ b2) 40) by lia.
  rewrite (lor_shiftl_range _ (byteZ b1) 48) by lia.
  rewrite (lor_shiftl_range _ (byteZ b0) 56) by lia.
  cbn. lia.
Qed.

(** A big-endian field inside the buffer reads as the number its bytes
    spell. *)
Lemma read32_value (s : list byte) (lo : Z) :
  0 <= lo → lo + 4 <= len s →
  (slice s lo (lo + 4) ≫= BigEndian.Uint32)
    = Ok (be_value (take 4 (drop (Z.to_nat lo) s))).
Proof.
  intros Hlo Hhi. rewrite slice_in by lia. cbn [mbind result_bind].
  replace (Z.to_nat (lo + 4 - lo)) with 4%nat by lia.
  assert (Hlen : length (take 4 (drop (Z.to_nat lo) s)) = 4%nat)
    by (apply len_take_drop; unfold len in Hhi; lia).
  destruct (take 4 (drop (Z.to_nat lo) s)) as [|b0 [|b1 [|b2 [|b3 [|b4 l]]]]];
    try discriminate.
  apply Uint32_value.
Qed.

Lemma read64_value (s : list byte) (lo : Z) :
  0 <= lo → lo + 8 <= len s →
  (slice s lo (lo + 8) ≫= BigEndian.Uint64)
    = Ok (be_value (take 8 (drop (Z.to_nat lo) s))).
Proof.
  intros Hlo Hhi. rewrite slice_in by lia. cbn [mbind result_bind].
  replace (Z.to_nat (lo + 8 - lo)) with 8%nat by lia.
  assert (Hlen : length (take 8 (drop (Z.to_nat lo) s)) = 8%nat)
    by (apply len_take_drop; unfold len in Hhi; lia).
  destruct (take 8 (drop (Z.to_nat lo) s))
    as [|b0 [|b1 [|b2 [|b3 [|b4 [|b5 [|b6 [|b7 [|b8 l]]]]]]]]];
    try discriminate.
  apply Uint64_value.
Qed.

(** [FeaturesReply.UnmarshalBinary] once its header and length checks have
    passed: the fixed fields are read, then the ports. *)
Lemma FeaturesReply_UnmarshalBinary_checked (r : FeaturesReply Port)
    (data : list byte) (h : Header) :
  Header_UnmarshalBinary data = Ok h → 32 <= Length h <= len data →
  ∃ ntab, data !! 20%nat = Some ntab ∧
  FeaturesReply_UnmarshalBinary r data =
    (λ ports,
       {| fr_header := h;
          DPID := be_value (take 8 (drop 8 data));
          NumBuffers := be_value (take 4 (drop 16 data));
          NumTables := byteZ ntab;
          Capabilities := getCapability (be_value (take 4 (drop 24 data)));
          Actions := getSupportedAction (be_value (take 4 (drop 28 data)));
          Ports := ports |})
    <$> (if uint16 (Length h - 32) / 48 =? 0 then Ok (Ports r)
         else decode_ports (Z.to_nat (uint16 (Length h - 32) / 48)) data 0
                (replicate (Z.to_nat (uint16 (Length h - 32) / 48)) None)).
Proof.
  intros Hh Hrange.
  destruct (index_in data 20 ltac:(lia)) as (ntab & Hntab & Hl20).
  exists ntab. split; [exact Hl20 | ].
  unfold FeaturesReply_UnmarshalBinary.
  cbn [UnmarshalBinary Header_unmarshaler]. rewrite Hh. cbn [mbind result_bind].
  destruct ((Length h <? 32) || (len data <? Length h)) eqn:E;
    [apply orb_true_iff in E as [E | E]; lia | ].
  pose proof (read64_value data 8 ltac:(lia) ltac:(lia)) as Hdpid.
  pose proof (read32_value data 16 ltac:(lia) ltac:(lia)) as Hnbuf.
  pose proof (read32_value data 24 ltac:(lia) ltac:(lia)) as Hcaps.
  pose proof (read32_value data 28 ltac:(lia) ltac:(lia)) as Hacts.
  change (8 + 8) with 16 in Hdpid. change (16 + 4) with 20 in Hnbuf.
  change (24 + 4) with 28 in Hcaps. change (28 + 4) with 32 in Hacts.
  change (Z.to_nat 8) with 8%nat in Hdpid.
  change (Z.to_nat 16) with 16%nat in Hnbuf.
  change (Z.to_nat 24) with 24%nat in Hcaps.
  change (Z.to_nat 28) with 28%nat in Hacts.
  unfold mbind in Hdpid, Hnbuf, Hcaps, Hacts.
  destruct (slice data 8 16); try discriminate. cbn [mbind result_bind].
  cbn [result_bind] in Hdpid. rewrite Hdpid. cbn [mbind result_bind].
  destruct (slice data 16 20); try discriminate. cbn [mbind result_bind].
  cbn [result_bind] in Hnbuf. rewrite Hnbuf. cbn [mbind result_bind].
  rewrite Hntab. cbn [mbind result_bind].
  destruct (slice data 24 28); try discriminate. cbn [mbind result_bind].
  cbn [result_bind] in Hcaps. rewrite Hcaps. cbn [mbind result_bind].
  destruct (slice data 28 32); try discriminate. cbn [mbind result_bind].
  cbn [result_bind] in Hacts. rewrite Hacts. cbn [mbind result_bind].
  destruct (uint16 (Length h - 32) / 48 =? 0); [reflexivity | ].
  destruct (decode_ports _ _ _ _); reflexivity.
Qed.

(** A successful features decode returns the decoded header, whose length
    is at least 32 and held by the buffer, and reads the fixed fields at
    their offsets, most significant byte first: the datapath id from bytes
    8-15 (a 64-bit value), the buffer count from bytes 16-19, the table count
    from byte 20, the capability mask from bytes 24-27 and the action mask
    from bytes 28-31; bytes 21-23 are not looked at. *)
Theorem features_reply_fixed_fields (r v : FeaturesReply Port) (data : list byte) :
  FeaturesReply_UnmarshalBinary r data = Ok v →
  Header_UnmarshalBinary data = Ok (fr_header v) ∧
  32 <= Length (fr_header v) <= len data ∧
  DPID v = be_value (take 8 (drop 8 data)) ∧ 0 <= DPID v < 2 ^ 64 ∧
  NumBuffers v = be_value (take 4 (drop 16 data)) ∧
  byteZ <$> data !! 20%nat = Some (NumTables v) ∧
  Capabilities v = getCapability (be_value (take 4 (drop 24 data))) ∧
  Actions v = getSupportedAction (be_value (take 4 (drop 28 data))).
Proof.
  intros Hv.
  destruct (Header_UnmarshalBinary data) as [h| |] eqn:Hh;
    try (unfold FeaturesReply_UnmarshalBinary in Hv;
         cbn [UnmarshalBinary Header_unmarshaler] in Hv;
         rewrite Hh in Hv; discriminate).
  assert (Hrange : 32 <= Length h <= len data).
  { unfold FeaturesReply_UnmarshalBinary in Hv.
    cbn [UnmarshalBinary Header_unmarshaler] in Hv.
    rewrite Hh in Hv. cbn [mbind result_bind] in Hv.
    destruct ((Length h <? 32) || (len data <? Length h)) eqn:E;
      [discriminate | ].
    apply orb_false_iff in E as [E1 E2]. lia. }
  destruct (FeaturesReply_UnmarshalBinary_checked r data h Hh Hrange)
    as (ntab & Hntab & Heq).
  rewrite Heq in Hv.
  destruct (if _ =? 0 then _ else _) as [ports| |]; try discriminate.
  cbn [fmap result_fmap] in Hv. injection Hv as <-.
  cbn [fr_header DPID NumBuffers NumTables Capabilities Actions].
  rewrite Hntab.
  split; [reflexivity | ]. split; [exact Hrange | ].
  split; [reflexivity | ]. split; [ | repeat split].
  pose proof (be_value_range (take 8 (drop 8 data))) as Hbe.
  assert (Hlen : len (take 8 (drop 8 data)) = 8).
  { unfold len in *. rewrite len_take_drop; lia. }
  rewrite Hlen in Hbe. lia.
Qed.

Lemma first_failure_first_error {A} (rs : list (result A)) (j : nat) (e : error) :
  rs !! j = Some (Err e) →
  (∀ i, (i < j)%nat → ∃ a, rs !! i = Some (Ok a)) →
  first_failure rs = Err e.
Proof.
  revert j. induction rs as [|r rs IH]; intros j Hj Hbefore; [discriminate | ].
  destruct j as [|j]; cbn [first_failure].
  - injection Hj as ->. reflexivity.
  - destruct (Hbefore 0%nat ltac:(lia)) as [a Ha]. injection Ha as ->.
    cbn [mbind result_bind].
    rewrite (IH j); [reflexivity | exact Hj | ].
    intros i Hi. apply (Hbefore (S i)). lia.
Qed.

Lemma wire_ports_lookup (data : list byte) (n j : nat) :
  (j < n)%nat →
  wire_ports (Port := Port) data n !! j
    = Some (UnmarshalBinary new (wire_window data j)).
Proof.
  intros Hj. unfold wire_ports.
  rewrite list_lookup_fmap, lookup_seq_lt by exact Hj. reflexivity.
Qed.

Lemma wire_window_length (data : list byte) (i : nat) :
  32 + 48 * (Z.of_nat i + 1) <= len data → length (wire_window data i) = 48%nat.
Proof.
  intros Hlen. unfold wire_window. apply len_take_drop. unfold len in Hlen. lia.
Qed.

(** The first port record that fails to decode aborts the features decode
    with that record's error: there is no partial result. *)
Theorem first_port_error_aborts (r : FeaturesReply Port) (data : list byte)
    (l : Z) (j : nat) (e : error) :
  declared_length data = Some l → 32 <= l <= len data →
  (j < Z.to_nat ((l - 32) / 48))%nat →
  (∀ i, (i < j)%nat →
        is_Ok (UnmarshalBinary (T := Port) new (wire_window data i)) = true) →
  UnmarshalBinary (T := Port) new (wire_window data j) = Err e →
  FeaturesReply_UnmarshalBinary r data = Err e.
Proof.
  intros Hl Hrange Hj Hbefore Hfail.
  pose proof (FeaturesReply_UnmarshalBinary_ports r data l Hl Hrange) as Hp.
  destruct (Z.to_nat ((l - 32) / 48)) as [|n'] eqn:En; [lia | ].
  rewrite (first_failure_first_error _ j e) in Hp.
  - destruct (FeaturesReply_UnmarshalBinary r data); try discriminate.
    cbn [fmap result_fmap] in Hp. congruence.
  - rewrite wire_ports_lookup by exact Hj. rewrite Hfail. reflexivity.
  - intros i Hi. rewrite wire_ports_lookup by lia.
    specialize (Hbefore i Hi).
    destruct (UnmarshalBinary new (wire_window data i)) as [a| |];
      try discriminate.
    exists a. reflexivity.
Qed.

(** A features reply with no room for a port record (declared length 32 to
    79) leaves the receiver's port list as it was: decoding into a receiver
    that already holds ports keeps them. *)
Theorem portless_reply_keeps_receiver_ports (r : FeaturesReply Port)
    (data : list byte) (l : Z) :
  declared_length data = Some l → 32 <= l <= len data → l < 80 →
  ∃ v, FeaturesReply_UnmarshalBinary r data = Ok v ∧ Ports v = Ports r.
Proof.
  intros Hl Hrange Hsmall.
  pose proof (FeaturesReply_UnmarshalBinary_ports r data l Hl Hrange) as Hp.
  assert (Hn : (l - 32) / 48 = 0) by (apply Z.div_small; lia).
  rewrite Hn in Hp. change (Z.to_nat 0) with 0%nat in Hp. cbn match in Hp.
  destruct (FeaturesReply_UnmarshalBinary r data) as [v| |]; try discriminate.
  exists v. split; [reflexivity | ]. cbn [fmap result_fmap] in Hp. congruence.
Qed.

(** Decoding a features reply stays inside the buffer for every buffer and
    every receiver, given a port decoder that stays inside a 48-byte record:
    the fixed fields are read only after the length checks, and the port
    windows, whose offsets are computed in 16 bits without wrapping, end
    within the declared length. *)
Theorem features_decode_stays_in_buffer (r : FeaturesReply Port) (data : list byte) :
  (∀ w, length w = 48%nat → UnmarshalBinary (T := Port) new w ≠ Panic) →
  FeaturesReply_UnmarshalBinary r data ≠ Panic.
Proof.
  intros Hport Hpanic.
  destruct (Header_UnmarshalBinary_cases data)
    as [He | (h & He & Hd & Hr & Hl16 & _)].
  - unfold FeaturesReply_UnmarshalBinary in Hpanic.
    cbn [UnmarshalBinary Header_unmarshaler] in Hpanic.
    rewrite He in Hpanic. discriminate.
  - destruct (Z.lt_ge_cases (Length h) 32) as [Hlt | Hge].
    + rewrite (FeaturesReply_UnmarshalBinary_below_32 r data _ Hd Hlt) in Hpanic.
      discriminate.
    + pose proof (FeaturesReply_UnmarshalBinary_ports r data _ Hd ltac:(lia)) as Hp.
      rewrite Hpanic in Hp.
      destruct (Z.to_nat ((Length h - 32) / 48)) as [|n'] eqn:En;
        [discriminate | ].
      destruct (first_failure _) eqn:E; try discriminate.
      apply first_failure_Panic in E. unfold wire_ports in E.
      apply list_elem_of_fmap in E as (i & Hi & Hin).
      apply elem_of_seq in Hin.
      assert (Hroom : 48 * ((Length h - 32) / 48) <= Length h - 32)
        by (apply Z.mul_div_le; lia).
      apply (Hport (wire_window data i)); [ | symmetry; exact Hi].
      apply wire_window_length. lia.
Qed.

(** A message [ParseMessage] returns has the kind its type byte (byte 1 of
    the buffer) selects and is what that kind's decoder makes of the whole
    buffer on a fresh receiver; a statistics reply is only ever returned as a
    description reply, with sub-type [OFPST_DESC] at bytes 8-9. *)
Theorem parsed_kind_matches_type (data : list byte) (v : incoming) :
  parse data = Ok v →
  ∃ t, data !! 1%nat = Some t ∧
    match v with
    | InFeaturesReply m =>
        byteZ t = OFPT_FEATURES_REPLY ∧ UnmarshalBinary new data = Ok m
    | InGetConfigReply m =>
        byteZ t = OFPT_GET_CONFIG_REPLY ∧ UnmarshalBinary new data = Ok m
    | InDescriptionReply m =>
        byteZ t = OFPT_STATS_REPLY ∧ stats_subtype data = Some OFPST_DESC ∧
        UnmarshalBinary new data = Ok m
    | InPortStatus m =>
        byteZ t = OFPT_PORT_STATUS ∧ UnmarshalBinary new data = Ok m
    | InFlowRemoved m =>
        byteZ t = OFPT_FLOW_REMOVED ∧ UnmarshalBinary new data = Ok m
    end.
Proof.
  unfold ParseMessage, Message_UnmarshalBinary.
  destruct (Header_UnmarshalBinary_cases data)
    as [-> | (h & -> & _ & _ & _ & t & Ht & Htype)]; [discriminate | ].
  cbn [mbind result_bind]. unfold select_incoming, Message_Type.
  cbn [header]. rewrite Htype. intros Hv. exists t. split; [exact Ht | ].
  destruct (Z.eqb_spec (byteZ t) OFPT_FEATURES_REPLY) as [E1 | E1].
  { cbn [mbind result_bind Incoming_UnmarshalBinary] in Hv.
    destruct (UnmarshalBinary new data) as [m| |] eqn:Em; try discriminate.
    cbn [fmap result_fmap] in Hv. injection Hv as <-.
    split; [exact E1 | reflexivity]. }
  destruct (Z.eqb_spec (byteZ t) OFPT_GET_CONFIG_REPLY) as [E2 | E2].
  { cbn [mbind result_bind Incoming_UnmarshalBinary] in Hv.
    destruct (UnmarshalBinary new data) as [m| |] eqn:Em; try discriminate.
    cbn [fmap result_fmap] in Hv. injection Hv as <-.
    split; [exact E2 | reflexivity]. }
  destruct (Z.eqb_spec (byteZ t) OFPT_STATS_REPLY) as [E3 | E3].
  { destruct (stats_subtype data) as [st|] eqn:Est.
    - pose proof (stats_subtype_read data st Est) as Hread.
      unfold mbind in Hread, Hv.
      destruct (slice data 8 10); try discriminate.
      cbn [result_bind] in Hread, Hv. rewrite Hread in Hv. cbn [result_bind] in Hv.
      destruct (Z.eqb_spec st OFPST_DESC) as [Heq | Hne]; [ | discriminate].
      cbn [result_bind Incoming_UnmarshalBinary] in Hv.
      destruct (UnmarshalBinary new data) as [m| |] eqn:Em; try discriminate.
      cbn [fmap result_fmap] in Hv. injection Hv as <-.
      split; [exact E3 | split; [congruence | reflexivity]].
    - apply stats_subtype_None in Est.
      rewrite slice_out in Hv by lia. discriminate. }
  destruct (Z.eqb_spec (byteZ t) OFPT_PORT_STATUS) as [E4 | E4].
  { cbn [mbind result_bind Incoming_UnmarshalBinary] in Hv.
    destruct (UnmarshalBinary new data) as [m| |] eqn:Em; try discriminate.
    cbn [fmap result_fmap] in Hv. injection Hv as <-.
    split; [exact E4 | reflexivity]. }
  destruct (Z.eqb_spec (byteZ t) OFPT_FLOW_REMOVED) as [E5 | E5].
  { cbn [mbind result_bind Incoming_UnmarshalBinary] in Hv.
    destruct (UnmarshalBinary new data) as [m| |] eqn:Em; try discriminate.
    cbn [fmap result_fmap] in Hv. injection Hv as <-.
    split; [exact E5 | reflexivity]. }
  discriminate.
Qed.

End CodecMore.

(** ** The discovery engine: probes, ports and goroutine turns *)

Section EngineMore.

Import openflow discovery.

Context {W : Type} `{!Collaborators W} `{!BinaryUnmarshaler ARP}.

Local Abbreviation state := (discovery.state W).

Lemma bind_fail {A B} (e : error) (k : A → M W B) (s : state) :
  bindM (fail e) k s = (Err e, s).
Proof. reflexivity. Qed.

(** The sends of one pass: a prefix of the hosts, in order, each from the
    probe source; the pass ends with nil only after the whole list. *)
Lemma probe_hosts_calls (device : Device) (hosts : list (list byte)) (s : state) :
  ∃ k, (k <= length hosts)%nat ∧
    calls (probe_hosts device hosts s).2 =
      calls s ++ (CallSendARPProbe device myMAC <$> take k hosts) ∧
    (probe_hosts device hosts s).1 ≠ Panic ∧
    ((probe_hosts device hosts s).1 = Ok tt → k = length hosts).
Proof.
  revert s. induction hosts as [|ip rest IH]; intros s.
  - exists 0%nat. cbn. rewrite app_nil_r. repeat split; [lia | discriminate].
  - cbn [probe_hosts]. rewrite bind_collab.
    destruct (dev_SendARPProbe device myMAC ip (world s)).1 as [err|].
    + exists 1%nat. cbn [length take fmap list_fmap fail fst snd calls].
      repeat split; [lia | discriminate | discriminate].
    + match goal with
      | |- context [probe_hosts device rest ?s0] =>
          destruct (IH s0) as (k & Hk & Hcalls & Hpanic & Hok)
      end.
      exists (S k). cbn [length take fmap list_fmap].
      rewrite Hcalls. cbn [calls]. rewrite <- app_assoc.
      repeat split; [lia | exact Hpanic | ].
      intros Hret. f_equal. exact (Hok Hret).
Qed.


Lemma sendARPProbes_no_panic (device : Device) (s : state) :
  (sendARPProbes device s).1 ≠ Panic.
Proof.
  unfold sendARPProbes. destruct (dev_IsClosed device (world s)); [discriminate | ].
  rewrite bind_collab.
  destruct (db_GetUndiscoveredHosts (1 * Minute) (world s)).1 as [hosts [err|]];
    cbn [fst snd]; [discriminate | ].
  match goal with
  | |- context [probe_hosts device hosts ?s0] =>
      destruct (probe_hosts_calls device hosts s0) as (k & _ & _ & Hpanic & _)
  end.
  exact Hpanic.
Qed.

Lemma sendARPProbes_appends (device : Device) (s : state) :
  ∃ cs, calls (sendARPProbes device s).2 = calls s ++ cs ∧
        Forall (λ c, is_forward_call c = false) cs.
Proof.
  unfold sendARPProbes. destruct (dev_IsClosed device (world s)).
  - exists []. split; [cbn; rewrite app_nil_r; reflexivity | constructor].
  - rewrite bind_collab.
    destruct (db_GetUndiscoveredHosts (1 * Minute) (world s)).1 as [hosts [err|]];
      cbn [fst snd].
    + eexists [_]. split; [reflexivity | repeat constructor].
    + match goal with
      | |- context [probe_hosts device hosts ?s0] =>
          destruct (probe_hosts_calls device hosts s0) as (k & _ & Hcalls & _)
      end.
      eexists (_ :: _). rewrite Hcalls. cbn [calls]. rewrite <- app_assoc.
      split; [reflexivity | ]. constructor; [reflexivity | ].
      apply Forall_fmap, Forall_true. intros ip. reflexivity.
Qed.

Lemma ignore_error_sendARPProbes (device : Device) (s : state) :
  ignore_error (sendARPProbes device) s = (Ok tt, (sendARPProbes device s).2).
Proof.
  unfold ignore_error. pose proof (sendARPProbes_no_panic device s) as Hpanic.
  destruct (sendARPProbes device s) as [[[]|e|] s']; cbn [fst snd] in *;
    [reflexivity | reflexivity | contradiction].
Qed.

(** A turn of a probing goroutine never fails: an error of the pass is
    logged and dropped.  Once the context of a goroutine is cancelled its
    next turn calls no collaborator and makes it return, and a goroutine that
    has returned does nothing.  A turn never touches the canceller table, nor
    the device or the cancellation of any goroutine. *)
Theorem cancelled_task_sends_nothing (c : nat) (s : state) :
  let out := task_turn c s in
  out.1 = Ok tt ∧
  (∀ t, tasks s !! c = Some t → ctx_done t = true →
        calls out.2 = calls s ∧ world out.2 = world s ∧
        returned <$> tasks out.2 !! c = Some true) ∧
  (∀ t, tasks s !! c = Some t → returned t = true → out.2 = s) ∧
  canceller out.2 = canceller s ∧
  task_key <$> tasks out.2 = task_key <$> tasks s.
Proof.
  cbn zeta. unfold task_turn.
  destruct (tasks s !! c) as [t|] eqn:Et.
  2: { repeat split; intros; discriminate. }
  destruct (returned t) eqn:Eret.
  { split; [reflexivity | ]. split; [ | split; [ | split; reflexivity]].
    - intros t' [= <-] _. cbn [snd]. rewrite Et. cbn. rewrite Eret.
      repeat split.
    - intros t' _ _. reflexivity. }
  destruct (ctx_done t) eqn:Edone.
  - split; [reflexivity | ]. split; [ | split; [ | split]].
    + intros t' [= <-] _. cbn [snd calls world tasks].
      rewrite list_lookup_alter_eq, Et. repeat split.
    + intros t' [= <-] Hret. congruence.
    + reflexivity.
    + cbn [snd tasks]. apply list_eq. intros i.
      rewrite !list_lookup_fmap.
      destruct (decide (i = c)) as [-> | Hne].
      * rewrite list_lookup_alter_eq, Et. reflexivity.
      * rewrite list_lookup_alter_ne by congruence. reflexivity.
  - rewrite ignore_error_sendARPProbes.
    destruct (keeps_sendARPProbes (task_device t) s) as [Hc Ht].
    split; [reflexivity | ]. split; [ | split; [ | split]].
    + intros t' [= <-] Hdone. congruence.
    + intros t' [= <-] Hret. congruence.
    + exact Hc.
    + cbn [snd]. rewrite Ht. reflexivity.
Qed.

(** [OnPortUp] always hands the event to the next link, after a probe pass
    on the port's device whose outcome it ignores: the forward is its last
    call, made in the state the pass left, nothing before it is a forward,
    and what the link returns is what [OnPortUp] returns. *)
Theorem port_up_always_forwarded (finder : Finder) (port : Port) (s : state) :
  OnPortUp finder port s =
    forward (FwdPortUp finder port) (sendARPProbes (port_Device port) s).2 ∧
  ∃ before,
    calls_since s (OnPortUp finder port s).2 =
      before ++ [CallNext (FwdPortUp finder port)] ∧
    Forall (λ c, is_forward_call c = false) before.
Proof.
  assert (Heq : OnPortUp finder port s =
            forward (FwdPortUp finder port) (sendARPProbes (port_Device port) s).2).
  { unfold OnPortUp. unfold bindM at 1.
    rewrite ignore_error_sendARPProbes. reflexivity. }
  split; [exact Heq | ].
  destruct (sendARPProbes_appends (port_Device port) s) as (cs & Hcs & Hall).
  exists cs. split; [ | exact Hall].
  rewrite Heq. apply calls_since_app.
  destruct (forward_calls (FwdPortUp finder port)
              (sendARPProbes (port_Device port) s).2) as [-> _].
  rewrite Hcs, <- app_assoc. reflexivity.
Qed.

(** [OnPortDown]: with a device id that is not a 64-bit decimal number it
    fails before any call; otherwise it asks the store to reset the host
    locations of that device and port (the port number in 16 bits); when the
    store fails, the error is returned and the event is not handed on; when
    it succeeds the event is forwarded and the next link's answer returned.
    The canceller table is never touched. *)
Theorem port_down_resets_then_forwards (finder : Finder) (port : Port) (s : state) :
  let out := OnPortDown finder port s in
  match ParseUint (dev_ID (port_Device port)) with
  | None =>
      out = (Err (errorString ("invalid device ID: " +:+ dev_ID (port_Device port))), s)
  | Some swDPID =>
      let reset := db_ResetHostLocationsByPort swDPID (uint16 (port_Number port))
                     (world s) in
      match reset.1 with
      | Some err =>
          out.1 = Err err ∧
          calls_since s out.2 =
            [CallResetHostLocationsByPort swDPID (uint16 (port_Number port))]
      | None =>
          calls_since s out.2 =
            [CallResetHostLocationsByPort swDPID (uint16 (port_Number port));
             CallNext (FwdPortDown finder port)] ∧
          out.1 = match (next_processor (FwdPortDown finder port) reset.2).1 with
                  | Some err => Err err
                  | None => Ok tt
                  end
      end
  end ∧
  canceller out.2 = canceller s ∧ tasks out.2 = tasks s.
Proof.
  cbn zeta. split; [ | apply keeps_OnPortDown].
  unfold OnPortDown.
  destruct (ParseUint (dev_ID (port_Device port))) as [swDPID|]; [ | reflexivity].
  rewrite bind_collab.
  destruct (db_ResetHostLocationsByPort swDPID (uint16 (port_Number port))
              (world s)).1 as [err|].
  - split; [reflexivity | apply calls_since_app; reflexivity].
  - match goal with
    | |- context [forward ?ev ?s0] => destruct (forward_calls ev s0) as [Hc Hr]
    end.
    split; [ | exact Hr].
    apply calls_since_app. rewrite Hc. cbn [calls]. rewrite <- app_assoc.
    reflexivity.
Qed.

Lemma OnDeviceDown_unfold (finder : Finder) (device : Device) (s : state) :
  OnDeviceDown finder device s =
    match ParseUint (dev_ID device) with
    | None => fail (errorString ("invalid device ID: " +:+ dev_ID device))
    | Some swDPID =>
        bindM (collab (CallResetHostLocationsByDevice swDPID)
                 (db_ResetHostLocationsByDevice swDPID))
          (λ e, match e with
                | Some err => fail err
                | None => forward (FwdDeviceDown finder device)
                end)
    end (removeARPSender (dev_ID device) s).2.
Proof.
  unfold OnDeviceDown, bindM at 1, removeARPSender.
  destruct (canceller s !! dev_ID device); reflexivity.
Qed.

Lemma OnDeviceDown_state (finder : Finder) (device : Device) (s : state) :
  canceller (OnDeviceDown finder device s).2 = delete (dev_ID device) (canceller s) ∧
  tasks (OnDeviceDown finder device s).2 =
    match canceller s !! dev_ID device with
    | Some c => alter cancel c (tasks s)
    | None => tasks s
    end.
Proof.
  rewrite OnDeviceDown_unfold.
  destruct (removeARPSender_state (dev_ID device) s) as (_ & Hc & Ht & _).
  cbn zeta in Hc, Ht. rewrite <- Hc, <- Ht.
  destruct (ParseUint (dev_ID device)) as [swDPID|]; [ | split; reflexivity].
  apply (keeps_bind (W := W)); [apply keeps_collab | ].
  intros [err|]; [apply keeps_fail | apply keeps_forward].
Qed.


(** [OnDeviceDown] after the sender is stopped: with a device id that is a
    64-bit decimal number it asks the store to reset the host locations of
    the device; a failing store ends the handler with that error and the
    event is not handed on; otherwise the event is forwarded and the next
    link's answer returned. *)
Theorem device_down_resets_then_forwards (finder : Finder) (device : Device)
    (swDPID : Z) (s : state) :
  ParseUint (dev_ID device) = Some swDPID →
  let out := OnDeviceDown finder device s in
  let reset := db_ResetHostLocationsByDevice swDPID (world s) in
  match reset.1 with
  | Some err =>
      out.1 = Err err ∧
      calls_since s out.2 = [CallResetHostLocationsByDevice swDPID]
  | None =>
      calls_since s out.2 =
        [CallResetHostLocationsByDevice swDPID;
         CallNext (FwdDeviceDown finder device)] ∧
      out.1 = match (next_processor (FwdDeviceDown finder device) reset.2).1 with
              | Some err => Err err
              | None => Ok tt
              end
  end.
Proof.
  intros Hid. cbn zeta. rewrite OnDeviceDown_unfold, Hid.
  destruct (removeARPSender_state (dev_ID device) s) as (_ & _ & _ & Hw & Hcalls).
  cbn zeta in Hw, Hcalls. rewrite bind_collab, Hw.
  unfold calls_since. rewrite <- Hcalls.
  fold (calls_since (removeARPSender (dev_ID device) s).2).
  destruct (db_ResetHostLocationsByDevice swDPID (world s)).1 as [err|].
  - split; [reflexivity | ]. cbn [fail snd calls].
    unfold calls_since. apply drop_app_length.
  - match goal with
    | |- context [forward ?ev ?s0] => destruct (forward_calls ev s0) as [Hc Hr]
    end.
    split; [ | exact Hr].
    unfold calls_since. rewrite Hc. cbn [calls]. rewrite <- app_assoc.
    apply drop_app_length.
Qed.

(** [OnDeviceUp] starts the goroutine before it hands the event on: its
    only call is the forward, the next link's answer is what it returns, and
    the new goroutine and its entry are in place even when the link fails. *)
Theorem device_up_starts_then_forwards (finder : Finder) (device : Device)
    (s : state) :
  let out := OnDeviceUp finder device s in
  calls_since s out.2 = [CallNext (FwdDeviceUp finder device)] ∧
  out.1 = match (next_processor (FwdDeviceUp finder device) (world s)).1 with
          | Some err => Err err
          | None => Ok tt
          end ∧
  canceller out.2 !! dev_ID device = Some (length (tasks s)) ∧
  tasks out.2 !! length (tasks s) =
    Some {| task_device := device; ctx_done := false; returned := false |}.
Proof.
  cbn zeta.
  destruct (OnDeviceUp_state finder device s) as [Hc Ht]. cbn zeta in Hc, Ht.
  rewrite Hc, Ht.
  split; [ | split; [ | split]].
  - rewrite OnDeviceUp_unfold.
    match goal with
    | |- context [forward ?ev ?s0] => destruct (forward_calls ev s0) as [Hcalls _]
    end.
    apply calls_since_app. rewrite Hcalls. cbn [addARPSender snd calls].
    destruct (removeARPSender_state (dev_ID device) s) as (_ & _ & _ & _ & ->).
    reflexivity.
  - rewrite OnDeviceUp_unfold.
    match goal with
    | |- context [forward ?ev ?s0] => destruct (forward_calls ev s0) as [_ Hret]
    end.
    rewrite Hret. cbn [addARPSender snd world].
    destruct (removeARPSender_state (dev_ID device) s) as (_ & _ & _ & -> & _).
    reflexivity.
  - apply lookup_insert_eq.
  - rewrite lookup_app_r
      by (destruct (canceller s !! dev_ID device);
          [rewrite length_alter | ]; reflexivity).
    replace (length (tasks s) - _)%nat with 0%nat; [reflexivity | ].
    destruct (canceller s !! dev_ID device); [rewrite length_alter | ]; lia.
Qed.

Lemma live_of_keys (s s' : state) (id : string) :
  task_key <$> tasks s' = task_key <$> tasks s → live s' id = live s id.
Proof.
  intros Hkeys. unfold live.
  assert (Hlen : length (tasks s') = length (tasks s)).
  { rewrite <- (length_fmap task_key (tasks s')), Hkeys. apply length_fmap. }
  rewrite Hlen. apply list_filter_iff. intros c.
  assert (Hc : task_key <$> tasks s' !! c = task_key <$> tasks s !! c)
    by (rewrite <- !list_lookup_fmap, Hkeys; reflexivity).
  destruct (tasks s' !! c) as [t'|], (tasks s !! c) as [t|];
    try discriminate; [ | reflexivity].
  injection Hc as Hdev Hdone. rewrite Hdev, Hdone. reflexivity.
Qed.

(** Only device-up and device-down events change the canceller table: a
    port event, a packet or a goroutine turn leaves every entry, and every
    device's live goroutines, as they were. *)
Theorem only_device_events_change_table (ev : event) (s : state) (id : string) :
  match ev with
  | EvDeviceUp _ _ | EvDeviceDown _ _ => True
  | _ =>
      canceller (handle ev s).2 = canceller s ∧
      live (handle ev s).2 id = live s id
  end.
Proof.
  destruct ev as [f d | f d | f p | f p | f p eth | c]; cbn [handle]; try exact I.
  - destruct (keeps_OnPortUp f p s) as [Hc Ht].
    split; [exact Hc | apply live_of_keys; rewrite Ht; reflexivity].
  - destruct (keeps_OnPortDown f p s) as [Hc Ht].
    split; [exact Hc | apply live_of_keys; rewrite Ht; reflexivity].
  - destruct (keeps_OnPacketIn f p eth s) as [Hc Ht].
    split; [exact Hc | apply live_of_keys; rewrite Ht; reflexivity].
  - unfold task_turn. destruct (tasks s !! c) as [t|] eqn:Et;
      [ | split; reflexivity].
    destruct (returned t); [split; reflexivity | ].
    destruct (ctx_done t) eqn:Edone.
    + split; [reflexivity | ]. apply live_of_keys. cbn [snd tasks].
      apply list_eq. intros i. rewrite !list_lookup_fmap.
      destruct (decide (i = c)) as [-> | Hne].
      * rewrite list_lookup_alter_eq, Et. reflexivity.
      * rewrite list_lookup_alter_ne by congruence. reflexivity.
    + destruct (keeps_ignore_error _ (keeps_sendARPProbes (task_device t)) s)
        as [Hc Ht].
      split; [exact Hc | apply live_of_keys; rewrite Ht; reflexivity].
Qed.

(** A device-up or device-down event for one device leaves every other
    device's canceller entry and live goroutines as they were. *)
Theorem other_devices_undisturbed (w : W) (evs : list event)
    (finder : Finder) (device : Device) (id : string) :
  id ≠ dev_ID device →
  let s := run evs (New w) in
  let up := (OnDeviceUp finder device s).2 in
  let down := (OnDeviceDown finder device s).2 in
  canceller up !! id = canceller s !! id ∧ live up id = live s id ∧
  canceller down !! id = canceller s !! id ∧ live down id = live s id.
Proof.
  intros Hne s up down.
  assert (Hs : table_consistent s) by apply run_consistent, New_consistent.
  assert (Hup : table_consistent up) by apply OnDeviceUp_consistent, Hs.
  assert (Hdown : table_consistent down) by apply OnDeviceDown_consistent, Hs.
  destruct (OnDeviceUp_state finder device s) as [Hcu _].
  destruct (OnDeviceDown_state finder device s) as [Hcd _].
  cbn zeta in Hcu. fold up in Hcu. fold down in Hcd.
  assert (Heu : canceller up !! id = canceller s !! id)
    by (rewrite Hcu; apply lookup_insert_ne; congruence).
  assert (Hed : canceller down !! id = canceller s !! id)
    by (rewrite Hcd; apply lookup_delete_ne; congruence).
  rewrite (live_of_consistent up id Hup), (live_of_consistent down id Hdown),
    (live_of_consistent s id Hs), Heu, Hed.
  repeat split.
Qed.

(** What [OnPacketIn] calls on an ARP reply: nothing, or the location
    update, followed by the flow removals only when the store reports a
    change without error. *)
Lemma reply_outcome (finder : Finder) (ingress : Port) (eth : Ethernet)
    (arp : ARP) (s : state) :
  eth_Type eth = 0x0806 → UnmarshalBinary new (Payload eth) = Ok arp →
  Operation arp = 2 →
  let out := OnPacketIn finder ingress eth s in
  (SHA arp ≠ myMAC ∨ ParseUint (dev_ID (port_Device ingress)) = None →
   calls_since s out.2 = []) ∧
  (∀ swDPID, SHA arp = myMAC →
     ParseUint (dev_ID (port_Device ingress)) = Some swDPID →
     let update := CallUpdateHostLocation (THA arp) (TPA arp) swDPID
                     (uint16 (port_Number ingress)) in
     let answer := (db_UpdateHostLocation (THA arp) (TPA arp) swDPID
                      (uint16 (port_Number ingress)) (world s)).1 in
     match answer.2 with
     | Some err => out.1 = Err err ∧ calls_since s out.2 = [update]
     | None =>
         out.1 = Ok tt ∧
         calls_since s out.2 =
           update :: (if answer.1
                      then (λ d, CallRemoveFlowByMAC d (THA arp)) <$> Devices finder
                      else [])
     end).
Proof.
  intros Htype Hdec Hop. cbn zeta.
  rewrite (OnPacketIn_reply finder ingress eth arp s Htype Hdec Hop).
  unfold bytes_Equal. split.
  - intros [Hsha | Hid].
    + rewrite bool_decide_eq_false_2 by exact Hsha. apply calls_since_refl.
    + destruct (bool_decide (SHA arp = myMAC)); cbn [negb];
        [rewrite Hid | ]; apply calls_since_refl.
  - intros swDPID Hsha Hid. rewrite bool_decide_eq_true_2 by exact Hsha.
    cbn [negb]. rewrite Hid, bind_collab.
    destruct (db_UpdateHostLocation _ _ _ _ (world s)).1 as [updated [err|]];
      cbn [fst snd].
    + split; [reflexivity | apply calls_since_app; reflexivity].
    + destruct updated.
      * match goal with
        | |- context [remove_flows ?ds ?mac ?s0] =>
            destruct (remove_flows_calls ds mac s0) as [Hret Hcalls]
        end.
        split; [exact Hret | ]. apply calls_since_app.
        rewrite Hcalls. cbn [calls]. rewrite <- app_assoc. reflexivity.
      * split; [reflexivity | apply calls_since_app; reflexivity].
Qed.

(** An ARP reply is never handed to the next link, whoever sent it and
    whatever the store and the devices answer. *)
Theorem ARP_reply_never_forwarded (finder : Finder) (ingress : Port)
    (eth : Ethernet) (s : state) :
  is_ARP_reply eth →
  Forall (λ c, is_forward_call c = false)
    (calls_since s (OnPacketIn finder ingress eth s).2).
Proof.
  intros (Htype & arp & Hdec & Hop).
  destruct (reply_outcome finder ingress eth arp s Htype Hdec Hop)
    as [Hnone Hsome].
  destruct (decide (SHA arp = myMAC)) as [Hsha | Hsha];
    [ | rewrite Hnone by (left; exact Hsha); constructor].
  destruct (ParseUint (dev_ID (port_Device ingress))) as [swDPID|] eqn:Hid;
    [ | rewrite Hnone by (right; reflexivity); constructor].
  specialize (Hsome swDPID Hsha eq_refl). cbn zeta in Hsome.
  destruct (db_UpdateHostLocation _ _ _ _ (world s)).1 as [updated [err|]];
    cbn [fst snd] in Hsome.
  - destruct Hsome as [_ ->]. repeat constructor.
  - destruct Hsome as [_ ->]. constructor; [reflexivity | ].
    destruct updated; [ | constructor].
    apply Forall_fmap, Forall_true. intros d. reflexivity.
Qed.

(** Flows are removed only on a confirmed relocation: when the store
    answers a verified reply's update with an error, [OnPacketIn] returns
    that error, and when it reports no change, [OnPacketIn] returns nil; in
    both cases the update is the only call and no device is asked to remove a
    flow. *)
Theorem flows_removed_only_on_relocation (finder : Finder) (ingress : Port)
    (eth : Ethernet) (arp : ARP) (swDPID : Z) (s : state) :
  eth_Type eth = 0x0806 →
  UnmarshalBinary new (Payload eth) = Ok arp →
  Operation arp = 2 →
  SHA arp = myMAC →
  ParseUint (dev_ID (port_Device ingress)) = Some swDPID →
  let out := OnPacketIn finder ingress eth s in
  let update := CallUpdateHostLocation (THA arp) (TPA arp) swDPID
                  (uint16 (port_Number ingress)) in
  let answer := (db_UpdateHostLocation (THA arp) (TPA arp) swDPID
                   (uint16 (port_Number ingress)) (world s)).1 in
  (∀ err, answer.2 = Some err →
          out.1 = Err err ∧ calls_since s out.2 = [update]) ∧
  (answer = (false, None) → out.1 = Ok tt ∧ calls_since s out.2 = [update]).
Proof.
  intros Htype Hdec Hop Hsha Hid. cbn zeta.
  destruct (reply_outcome finder ingress eth arp s Htype Hdec Hop) as [_ Hsome].
  specialize (Hsome swDPID Hsha Hid). cbn zeta in Hsome.
  split.
  - intros err Herr. rewrite Herr in Hsome. exact Hsome.
  - intros Hans. rewrite Hans in Hsome. exact Hsome.
Qed.

End EngineMore.

(** ** The further theorems at concrete inputs *)

Section ConcreteMore.

Import openflow of10 discovery Examples.

(** The scenario buffer decodes to datapath id 42, with its header. *)
Lemma features_reply_fixed_fields_witness :
  ∃ v : FeaturesReply RawPort,
    FeaturesReply_UnmarshalBinary new features_no_port = Ok v ∧
    DPID v = 42 ∧ Length (fr_header v) = 32.
Proof.
  destruct (FeaturesReply_UnmarshalBinary (Port := RawPort) new features_no_port)
    as [v| |] eqn:Hv; try discriminate.
  exists v. split; [reflexivity | ].
  destruct (features_reply_fixed_fields new v features_no_port Hv)
    as (Hh & _ & Hdpid & _).
  split; [rewrite Hdpid; reflexivity | ].
  assert (Hc : Header_UnmarshalBinary features_no_port =
            Ok {| Version := 1; Type_ := 6; Length := 32; XID := 1 |})
    by reflexivity.
  rewrite Hc in Hh. injection Hh as Hh. rewrite <- Hh. reflexivity.
Defined.

(** The second of three port records is rejected: the decode returns its
    error. *)
Lemma first_port_error_aborts_witness :
  FeaturesReply_UnmarshalBinary (Port := StrictPort) new features_bad_port
    = Err (errorString "invalid port").
Proof.
  apply (first_port_error_aborts new features_bad_port 176 1).
  - reflexivity.
  - vm_compute. split; discriminate.
  - vm_compute. lia.
  - intros i Hi. assert (i = 0%nat) as -> by lia. reflexivity.
  - reflexivity.
Defined.

(** Decoding the port-less scenario buffer into a receiver that holds one
    port keeps that port. *)
Lemma portless_reply_keeps_receiver_ports_witness :
  let stale : FeaturesReply RawPort :=
    {| fr_header := new; DPID := 7; NumBuffers := 0; NumTables := 0;
       Capabilities := getCapability 0; Actions := getSupportedAction 0;
       Ports := [Some [mkbyte 1]] |} in
  ∃ v, FeaturesReply_UnmarshalBinary stale features_no_port = Ok v ∧
       Ports v = [Some [mkbyte 1]].
Proof.
  intros stale.
  apply (portless_reply_keeps_receiver_ports stale features_no_port 32).
  - reflexivity.
  - vm_compute. split; discriminate.
  - lia.
Defined.

Lemma RawPort_in_bounds (w : list byte) :
  UnmarshalBinary (T := RawPort) new w ≠ Panic.
Proof.
  cbn [UnmarshalBinary RawPort_unmarshaler].
  destruct (len w <? 48); discriminate.
Qed.

(** With the port stand-in that keeps its bytes, a features reply cut
    after its fixed fields while declaring two ports is an error, not an
    access outside the buffer. *)
Lemma features_decode_stays_in_buffer_witness :
  FeaturesReply_UnmarshalBinary (Port := RawPort) new
    (take 32 features_two_ports) ≠ Panic.
Proof.
  apply features_decode_stays_in_buffer.
  intros w _. apply RawPort_in_bounds.
Defined.

Lemma Raw_in_bounds (tag : Z) (r : Raw tag) (data : list byte) :
  UnmarshalBinary r data ≠ Panic.
Proof.
  cbn [UnmarshalBinary Raw_unmarshaler].
  destruct (Header_UnmarshalBinary_cases data) as [-> | (h & -> & _)];
    discriminate.
Qed.

(** With stand-in decoders that stay in bounds, a 12-byte statistics reply
    is parsed without leaving the buffer. *)
Lemma ParseMessage_out_of_bounds_iff_witness :
  ParseMessage_raw stats_flow ≠ Panic.
Proof.
  intros Hpanic.
  apply (ParseMessage_out_of_bounds_iff (Port := RawPort)
           (GetConfigReply := Raw OFPT_GET_CONFIG_REPLY)
           (DescriptionReply := Raw OFPT_STATS_REPLY)
           (PortStatus := Raw OFPT_PORT_STATUS)
           (FlowRemoved := Raw OFPT_FLOW_REMOVED) stats_flow) in Hpanic.
  - destruct Hpanic as (msg & _ & _ & Hlen). vm_compute in Hlen. discriminate.
  - intros v d. destruct v as [m | m | m | m | m];
      cbn [Incoming_UnmarshalBinary].
    + pose proof (FeaturesReply_UnmarshalBinary_in_bounds m d
                    (λ i, RawPort_in_bounds _)) as Hm.
      cbn [UnmarshalBinary FeaturesReply_unmarshaler].
      destruct (FeaturesReply_UnmarshalBinary m d); [discriminate | discriminate | ].
      contradiction.
    + pose proof (Raw_in_bounds _ m d).
      destruct (UnmarshalBinary m d); [discriminate | discriminate | contradiction].
    + pose proof (Raw_in_bounds _ m d).
      destruct (UnmarshalBinary m d); [discriminate | discriminate | contradiction].
    + pose proof (Raw_in_bounds _ m d).
      destruct (UnmarshalBinary m d); [discriminate | discriminate | contradiction].
    + pose proof (Raw_in_bounds _ m d).
      destruct (UnmarshalBinary m d); [discriminate | discriminate | contradiction].
Defined.

(** The scenario buffer, of type 6, parses to a features reply. *)
Lemma parsed_kind_matches_type_witness :
  ∃ m, ParseMessage_raw features_no_port = Ok (InFeaturesReply m) ∧
       FeaturesReply_UnmarshalBinary new features_no_port = Ok m.
Proof.
  destruct (ParseMessage_raw features_no_port) as [v| |] eqn:Hv;
    try discriminate.
  destruct (parsed_kind_matches_type features_no_port v Hv) as (t & Ht & Hkind).
  destruct v as [m | m | m | m | m];
    try (injection Ht as <-; destruct Hkind as [Hbad _]; discriminate Hbad).
  exists m. split; [reflexivity | apply Hkind].
Defined.

(** A device-up of device "1" leaves the entry and goroutine of device "2"
    alone. *)
Lemma other_devices_undisturbed_witness :
  let s := run [EvDeviceUp finder3 dev2] (New 0%nat) in
  live (OnDeviceUp finder3 dev1 s).2 "2" = live s "2" ∧
  live (OnDeviceDown finder3 dev1 s).2 "2" = live s "2".
Proof.
  cbn zeta.
  destruct (other_devices_undisturbed 0%nat [EvDeviceUp finder3 dev2]
              finder3 dev1 "2" ltac:(discriminate)) as (_ & Hup & _ & Hdown).
  split; [exact Hup | exact Hdown].
Defined.

(** A device-down of device "1": the reset, then the forward. *)
Lemma device_down_resets_then_forwards_witness :
  calls_since (New 0%nat) (OnDeviceDown finder3 dev1 (New 0%nat)).2 =
    [CallResetHostLocationsByDevice 1; CallNext (FwdDeviceDown finder3 dev1)].
Proof.
  pose proof (device_down_resets_then_forwards finder3 dev1 1 (New 0%nat)
                ltac:(reflexivity)) as Hdown.
  cbn zeta in Hdown. cbn match in Hdown. apply Hdown.
Defined.

(** The reply whose sender is the probe source makes four calls, none of
    them a forward. *)
Lemma ARP_reply_never_forwarded_witness :
  Forall (λ c, is_forward_call c = false)
    (calls_since (New 0%nat) (OnPacketIn finder3 port1_7 reply_to_probe (New 0%nat)).2).
Proof.
  apply ARP_reply_never_forwarded.
  split; [reflexivity | ]. eexists. split; reflexivity.
Defined.

(** Where the store reports no change, the same reply leads to the update
    and nothing else. *)
Lemma flows_removed_only_on_relocation_witness :
  calls_since (New tt) (OnPacketIn finder3 port1_7 reply_to_probe (New tt)).2 =
    [CallUpdateHostLocation host_mac host_ip 1 7].
Proof.
  destruct (flows_removed_only_on_relocation finder3 port1_7 reply_to_probe
              {| HWType := 1; ProtoType := 0x0800; HWLength := 6; ProtoLength := 4;
                 Operation := 2; SHA := myMAC; SPA := gw_ip;
                 THA := host_mac; TPA := host_ip |} 1 (New tt)
              ltac:(reflexivity) ltac:(reflexivity) ltac:(reflexivity)
              ltac:(reflexivity) ltac:(reflexivity)) as [_ Hsame].
  apply Hsame. reflexivity.
Defined.

End ConcreteMore.
